(** * DynUI enhanced components: a shallow embedding and its properties

    The development follows the TypeScript sources of the repository:
    the masking utilities and inline validators of the text input, the
    checkbox state machine, the validation hook, the data table's
    selection and processing pipeline, and the design-token key
    sanitizer.  Part I embeds the code; Part II states and proves the
    properties; Part III adds further properties of the same code. *)

From Stdlib Require Import List Bool Arith ZArith Lia.
From Stdlib Require Import Strings.Ascii Strings.String.
From Stdlib Require Import Sorting.Permutation Sorting.Sorted.
Import ListNotations.

(** [length] is the length of a list throughout. *)
Abbreviation length := List.length.

(* ================================================================= *)
(** * Part I. The embedding *)
(* ================================================================= *)

(** ** JavaScript strings

    A JS string is a sequence of code units.  Every string the modelled
    functions are applied to below lives in the Latin-1 range, so a code
    unit is an [ascii] (one byte, 0..255) and a string is a list of
    them. *)

Module Js.

Definition jsstring : Type := list ascii.

(** String literals. *)
Definition str (s : string) : jsstring := list_ascii_of_string s.

Definition code (c : ascii) : nat := nat_of_ascii c.

Definition in_range (lo hi : nat) (c : ascii) : bool :=
  (lo <=? code c) && (code c <=? hi).

(** [/\d/.test(c)]: the ASCII digits. *)
Definition is_digit (c : ascii) : bool := in_range 48 57 c.

(** [/[A-Z]/] and [/[a-z]/]. *)
Definition is_upper (c : ascii) : bool := in_range 65 90 c.
Definition is_lower (c : ascii) : bool := in_range 97 122 c.

(** [/[A-Za-z]/.test(c)]. *)
Definition is_letter (c : ascii) : bool := is_upper c || is_lower c.

(** [c.toUpperCase()] for an ASCII code unit: a..z move down by 32.  The
    masking code calls it only on characters that match [/[A-Za-z]/]. *)
Definition toUpperCase (c : ascii) : ascii :=
  if is_lower c then ascii_of_nat (code c - 32) else c.

(** [c.toLowerCase()], Latin-1: A..Z and 192..222 except the
    multiplication sign 215 move up by 32. *)
Definition toLowerChar (c : ascii) : ascii :=
  if is_upper c || (in_range 192 222 c && negb (code c =? 215))
  then ascii_of_nat (code c + 32) else c.

Definition toLowerCase (s : jsstring) : jsstring := map toLowerChar s.

(** White space and line terminators removed by [String.prototype.trim]
    (those of the Latin-1 range): TAB, LF, VT, FF, CR, SP, NBSP. *)
Definition is_space (c : ascii) : bool :=
  in_range 9 13 c || (code c =? 32) || (code c =? 160).

Fixpoint trimStart (s : jsstring) : jsstring :=
  match s with
  | [] => []
  | c :: s' => if is_space c then trimStart s' else s
  end.

Definition trimEnd (s : jsstring) : jsstring := rev (trimStart (rev s)).

Definition trim (s : jsstring) : jsstring := trimEnd (trimStart s).

(** [s.includes(t)]: [t] occurs in [s] as a contiguous substring. *)
Fixpoint startsWith (t s : jsstring) : bool :=
  match t, s with
  | [], _ => true
  | _ :: _, [] => false
  | a :: t', b :: s' => Ascii.eqb a b && startsWith t' s'
  end.

Fixpoint includes (s t : jsstring) : bool :=
  startsWith t s ||
  match s with
  | [] => false
  | _ :: s' => includes s' t
  end.

(** Membership in a list of code units, as [Set.prototype.has]. *)
Definition has (cs : list ascii) (c : ascii) : bool :=
  existsb (Ascii.eqb c) cs.

(** Truthiness of a string: the empty string is falsy. *)
Definition truthy (s : jsstring) : bool :=
  match s with [] => false | _ :: _ => true end.

(** Truthiness of an optional string ([undefined] is falsy). *)
Definition truthy_opt (o : option jsstring) : bool :=
  match o with Some s => truthy s | None => false end.

End Js.

(** ** Input masking (dyn-input.tsx, dyn-input-enhanced.tsx) *)

Module Mask.
Import Js.

(** The loop of [applyMask]: [mask] is the part of the template from
    index [i] on, [value] the part of the input from [valueIndex] on,
    [maskedValue] the accumulator.  The loop ends when either is
    exhausted, or at a [break]. *)
Fixpoint applyMask_loop (maskedValue value mask : jsstring) : jsstring :=
  match mask with
  | [] => maskedValue
  | maskChar :: mask' =>
    match value with
    | [] => maskedValue
    | inputChar :: value' =>
      if Ascii.eqb maskChar "9" then
        if is_digit inputChar
        then applyMask_loop (maskedValue ++ [inputChar]) value' mask'
        else maskedValue
      else if Ascii.eqb maskChar "A" then
        if is_letter inputChar
        then applyMask_loop (maskedValue ++ [toUpperCase inputChar]) value' mask'
        else maskedValue
      else if Ascii.eqb maskChar "*" then
        applyMask_loop (maskedValue ++ [inputChar]) value' mask'
      else
        applyMask_loop (maskedValue ++ [maskChar]) value mask'
    end
  end.

Definition applyMask (value mask : jsstring) : jsstring :=
  applyMask_loop [] value mask.

(** [/[9A*]/.test(char)] *)
Definition is_placeholder (c : ascii) : bool :=
  Ascii.eqb c "9" || Ascii.eqb c "A" || Ascii.eqb c "*".

(** [new Set([...mask].filter(char => !/[9A*]/.test(char)))] *)
Definition maskChars (mask : jsstring) : list ascii :=
  filter (fun char => negb (is_placeholder char)) mask.

Definition removeMask (value mask : jsstring) : jsstring :=
  filter (fun char => negb (has (maskChars mask) char)) value.

(** [newValue.replace(/\D/g, '')] *)
Definition stripNonDigits (s : jsstring) : jsstring := filter is_digit s.

(** What [handleChange] computes from the raw text of the control when
    a string mask is configured ([Some mask]) or not: the value stored
    for display ([setInputValue]) and the value handed to [onChange]. *)
Record change_result := {
  displayed : jsstring;
  reported  : jsstring
}.

Definition handleChange (maskPattern : option jsstring) (raw : jsstring)
  : change_result :=
  match maskPattern with
  | Some mask =>
    if truthy mask then
      let newValue := applyMask (stripNonDigits raw) mask in
      {| displayed := newValue; reported := removeMask newValue mask |}
    else {| displayed := raw; reported := raw |}
  | None => {| displayed := raw; reported := raw |}
  end.

(** A mask for digit entry: every character is the digit placeholder,
    the any-character placeholder, or a literal that is no digit. *)
Definition digit_slot (c : ascii) : bool :=
  Ascii.eqb c "9" || Ascii.eqb c "*".

Definition digit_mask_char (c : ascii) : bool :=
  digit_slot c || (negb (is_placeholder c) && negb (is_digit c)).

Definition digit_mask (mask : jsstring) : bool := forallb digit_mask_char mask.

(** The number of input characters a digit mask can take. *)
Definition slots (mask : jsstring) : nat :=
  length (filter digit_slot mask).

(** The phone mask of the stories and of the test suite. *)
Definition phoneMask : jsstring := str "(999) 999-9999".

End Mask.

(** ** The inline validator of the dual-mode text input (dyn-input.tsx)

    The inline validators have no exception handling of their own; the
    host's validator functions are taken at their declared type, a
    function to a boolean. *)

Module InputValidation.
Import Js.

Inductive rule_type : Type :=
| required | email | phone | url | min | max | pattern | custom | async.

Record ValidationRule := {
  type : rule_type;
  message : jsstring;
  value : option Z;
  rule_pattern : option (jsstring -> bool);
  customValidator : option (jsstring -> bool);
  asyncValidator : option (jsstring -> bool)
}.

(** The props that decide [hasEnhancedFeatures]. *)
Record props := {
  validation : list ValidationRule;
  mask : option jsstring;
  showCleanButton : bool;
  loading : bool
}.

Definition VALIDATORS_required (value : jsstring) : bool :=
  0 <? length (trim value).

Definition strlen (s : jsstring) : Z := Z.of_nat (length s).

Section Validators.
(** The regular-expression tests and the URL parser behind
    [VALIDATORS.email], [VALIDATORS.phone] and [VALIDATORS.url]. *)
Variables VALIDATORS_email VALIDATORS_phone VALIDATORS_url : jsstring -> bool.

(** The [switch] of the loop body: the final content of [isValid],
    which starts out [false]. *)
Definition ruleIsValid (rule : ValidationRule) (inputValue : jsstring)
  : bool :=
  match type rule with
  | required => VALIDATORS_required inputValue
  | email => negb (truthy inputValue) || VALIDATORS_email inputValue
  | phone => negb (truthy inputValue) || VALIDATORS_phone inputValue
  | url => negb (truthy inputValue) || VALIDATORS_url inputValue
  | min =>
    negb (truthy inputValue) ||
    match value rule with
    | Some v => if (v =? 0)%Z then (0 <=? strlen inputValue)%Z
                else (v <=? strlen inputValue)%Z
    | None => (0 <=? strlen inputValue)%Z
    end
  | max =>
    negb (truthy inputValue) ||
    match value rule with
    | Some v => if (v =? 0)%Z then true
                else (strlen inputValue <=? v)%Z
    | None => true
    end
  | pattern =>
    negb (truthy inputValue) ||
    match rule_pattern rule with
    | Some test => test inputValue
    | None => true
    end
  | custom =>
    negb (truthy inputValue) ||
    match customValidator rule with
    | Some f => f inputValue
    | None => true
    end
  | async =>
    (* "Async validation handled separately": nothing is assigned. *)
    false
  end.

(** One iteration of [for (const rule of validation)]. *)
Definition validate_step (inputValue : jsstring)
    (errors : list jsstring) (rule : ValidationRule) : list jsstring :=
  if negb (ruleIsValid rule inputValue)
  then errors ++ [message rule] else errors.

Definition hasEnhancedFeatures (p : props) : bool :=
  (0 <? length (validation p)) || truthy_opt (mask p)
  || showCleanButton p || loading p.

Definition validateInput (p : props) (inputValue : jsstring)
  : list jsstring :=
  if negb (hasEnhancedFeatures p) || (length (validation p) =? 0)
  then []
  else fold_left (validate_step inputValue) (validation p) [].

(** The enhanced-only input (dyn-input-enhanced.tsx) runs the same loop
    without the guard.  Its rule type and its [switch] have no [async]
    case; a rule of an unlisted type leaves [isValid] at [false] there
    too. *)
Definition validateInput_enhanced (validation : list ValidationRule)
    (inputValue : jsstring) : list jsstring :=
  fold_left (validate_step inputValue) validation [].

End Validators.

End InputValidation.

(** ** Feedback state shared by the inputs and the checkboxes

    The four components (dyn-input.tsx, dyn-input-enhanced.tsx,
    dyn-checkbox.tsx, dyn-checkbox-enhanced.tsx) derive their feedback
    flags with the same three lines. *)

Module Feedback.
Import Js.

Record feedback_props := {
  error : option jsstring;
  warning : option jsstring;
  success : option jsstring
}.

Definition hasError (p : feedback_props) (validationErrors : list jsstring)
  : bool :=
  truthy_opt (error p) || (0 <? length validationErrors).

Definition hasWarning (p : feedback_props) (validationErrors : list jsstring)
  : bool :=
  truthy_opt (warning p) && negb (hasError p validationErrors).

Definition hasSuccess (p : feedback_props) (validationErrors : list jsstring)
  : bool :=
  truthy_opt (success p) && negb (hasError p validationErrors)
  && negb (hasWarning p validationErrors).

(** [error || validationErrors[0]] *)
Definition currentError (p : feedback_props) (validationErrors : list jsstring)
  : option jsstring :=
  if truthy_opt (error p) then error p else nth_error validationErrors 0.

End Feedback.

(** ** Effects: exceptions and console diagnostics

    Host-supplied validators can throw, and the validation hook writes
    diagnostics to the console.  A computation takes the console so far
    and gives back an outcome together with the console afterwards. *)

Module Eff.
Import Js.

(** A thrown value, by its description. *)
Definition exn : Type := jsstring.

Inductive diag : Type :=
| Warn (text : jsstring)
| Error (text : jsstring) (e : exn).

Inductive outcome (A : Type) : Type :=
| Returned (a : A)
| Thrown (e : exn).
Arguments Returned {A} a.
Arguments Thrown {A} e.

Definition eff (A : Type) : Type := list diag -> outcome A * list diag.

Definition ret {A} (a : A) : eff A := fun console => (Returned a, console).

Definition throw {A} (e : exn) : eff A := fun console => (Thrown e, console).

Definition bind {A B} (m : eff A) (k : A -> eff B) : eff B :=
  fun console =>
    match m console with
    | (Returned a, console') => k a console'
    | (Thrown e, console') => (Thrown e, console')
    end.

(** [try { body } catch (error) { handler error }] *)
Definition try_catch {A} (body : eff A) (handler : exn -> eff A) : eff A :=
  fun console =>
    match body console with
    | (Returned a, console') => (Returned a, console')
    | (Thrown e, console') => handler e console'
    end.

Definition console_warn (text : jsstring) : eff unit :=
  fun console => (Returned tt, console ++ [Warn text]).

Definition console_error (text : jsstring) (e : exn) : eff unit :=
  fun console => (Returned tt, console ++ [Error text e]).

(** Calling a host function whose result is an outcome. *)
Definition call {A} (r : outcome A) : eff A := fun console => (r, console).

Definition TypeError : exn := str "TypeError".

End Eff.

Declare Scope eff_scope.
Delimit Scope eff_scope with eff.
Notation "x <- m ;; k" := (Eff.bind m (fun x => k))
  (at level 61, m at next level, right associativity) : eff_scope.
Notation "m ;;; k" := (Eff.bind m (fun _ => k))
  (at level 61, right associativity) : eff_scope.

(** ** The checkboxes (dyn-checkbox.tsx, dyn-checkbox-enhanced.tsx) *)

Module CheckboxTypes.
Import Js.

Inductive rule_type : Type := required | custom.

Record ValidationRule := {
  type : rule_type;
  message : jsstring;
  customValidator : option (bool -> bool)
}.

Record props := {
  checkedProp : option bool;
  defaultChecked : bool;
  disabled : bool;
  readonly : bool;
  indeterminate : bool;
  label : option jsstring;
  description : option jsstring;
  feedback : Feedback.feedback_props;
  validation : list ValidationRule;
  loading : bool;
  (** whether the host passed an [onChange] handler *)
  onChange : bool
}.

(** The [useState] cells of a mounted checkbox. *)
Record state := {
  checked : bool;
  isIndeterminate : bool;
  validationErrors : list jsstring;
  hasInteracted : bool
}.

(** A mounted component: its state and the dependency values its
    effects saw at the last commit ([useEffect] re-runs an effect only
    when one of its dependencies has changed). *)
Record instance := {
  st : state;
  deps_checkedProp : option bool;
  deps_indeterminate : bool * bool
}.

(** A call of the host's [onChange(checked, indeterminate?)]. *)
Definition call : Type := (bool * option bool)%type.

Inductive visual_state : Type :=
| vs_loading | vs_indeterminate | vs_checked | vs_unchecked.

Definition set_checked (b : bool) (s : state) : state :=
  {| checked := b; isIndeterminate := isIndeterminate s;
     validationErrors := validationErrors s; hasInteracted := hasInteracted s |}.

Definition set_isIndeterminate (b : bool) (s : state) : state :=
  {| checked := checked s; isIndeterminate := b;
     validationErrors := validationErrors s; hasInteracted := hasInteracted s |}.

Definition set_validationErrors (e : list jsstring) (s : state) : state :=
  {| checked := checked s; isIndeterminate := isIndeterminate s;
     validationErrors := e; hasInteracted := hasInteracted s |}.

Definition set_hasInteracted (b : bool) (s : state) : state :=
  {| checked := checked s; isIndeterminate := isIndeterminate s;
     validationErrors := validationErrors s; hasInteracted := b |}.

Definition option_bool_eqb (a b : option bool) : bool :=
  match a, b with
  | Some x, Some y => Bool.eqb x y
  | None, None => true
  | _, _ => false
  end.

(** The loop body shared by both [validateCheckbox] functions. *)
Definition ruleIsValid (rule : ValidationRule) (checked : bool) : bool :=
  match type rule with
  | required => checked
  | custom =>
    match customValidator rule with
    | Some f => f checked
    | None => true
    end
  end.

Definition validate_step (checked : bool) (errors : list jsstring)
    (rule : ValidationRule) : list jsstring :=
  if negb (ruleIsValid rule checked) then errors ++ [message rule] else errors.

Definition is_toggle_key (key : jsstring) : bool :=
  (if list_eq_dec ascii_dec key (str " ") then true else false)
  || (if list_eq_dec ascii_dec key (str "Enter") then true else false).

(** A checkbox the user can act on: none of the three guards of the
    handlers is set. *)
Definition interactive (p : props) : bool :=
  negb (readonly p || disabled p || loading p).


End CheckboxTypes.

(** The dual-mode checkbox. *)
Module DynCheckbox.
Import Js CheckboxTypes.

Definition hasEnhancedFeatures (p : props) : bool :=
  indeterminate p
  || truthy_opt (label p)
  || truthy_opt (description p)
  || truthy_opt (Feedback.error (feedback p))
  || truthy_opt (Feedback.warning (feedback p))
  || truthy_opt (Feedback.success (feedback p))
  || (0 <? length (validation p))
  || loading p.

Definition validateCheckbox (p : props) (checked : bool) : list jsstring :=
  if negb (hasEnhancedFeatures p) || (length (validation p) =? 0)
  then []
  else fold_left (validate_step checked) (validation p) [].

(** [handleChange], with [newChecked = event.target.checked]. *)
Definition handleChange (p : props) (newChecked : bool) (s : state)
  : state * list call :=
  if readonly p || disabled p || loading p then (s, [])
  else
    let s1 := set_checked newChecked s in
    if hasEnhancedFeatures p then
      let s2 := set_isIndeterminate false s1 in
      let s3 := set_hasInteracted true s2 in
      let errors := validateCheckbox p newChecked in
      let s4 := set_validationErrors errors s3 in
      (s4, if onChange p then [(newChecked, Some false)] else [])
    else
      (s1, if onChange p then [(newChecked, None)] else []).

(** The two prop-synchronising effects, in source order. *)
Definition effect_checkedProp (p : props) (s : state) : state :=
  match checkedProp p with
  | Some c => set_checked c s
  | None => s
  end.

Definition effect_indeterminate (p : props) (s : state) : state :=
  if hasEnhancedFeatures p then set_isIndeterminate (indeterminate p) s else s.

Definition mount (p : props) : instance :=
  let s0 := {| checked := match checkedProp p with
                          | Some c => c
                          | None => defaultChecked p
                          end;
               isIndeterminate := indeterminate p;
               validationErrors := [];
               hasInteracted := false |} in
  {| st := effect_indeterminate p (effect_checkedProp p s0);
     deps_checkedProp := checkedProp p;
     deps_indeterminate := (indeterminate p, hasEnhancedFeatures p) |}.

(** A later render with props [p]: each effect runs only if its
    dependency list differs from the one of the previous commit. *)
Definition render (p : props) (i : instance) : instance :=
  let s1 := if option_bool_eqb (checkedProp p) (deps_checkedProp i)
            then st i else effect_checkedProp p (st i) in
  let deps := (indeterminate p, hasEnhancedFeatures p) in
  let s2 := if Bool.eqb (fst deps) (fst (deps_indeterminate i))
               && Bool.eqb (snd deps) (snd (deps_indeterminate i))
            then s1 else effect_indeterminate p s1 in
  {| st := s2; deps_checkedProp := checkedProp p; deps_indeterminate := deps |}.

(** An event handler runs on the state of the instance. *)
Definition on_change (p : props) (newChecked : bool) (i : instance)
  : instance * list call :=
  let (s', calls) := handleChange p newChecked (st i) in
  ({| st := s'; deps_checkedProp := deps_checkedProp i;
      deps_indeterminate := deps_indeterminate i |}, calls).

(** The user toggles the native control: the event carries the
    opposite of the rendered [checked]. *)
Definition nativeToggle (p : props) (i : instance) : instance * list call :=
  on_change p (negb (checked (st i))) i.

Definition getVisualState (p : props) (s : state) : visual_state :=
  if loading p then vs_loading
  else if hasEnhancedFeatures p && isIndeterminate s then vs_indeterminate
  else if checked s then vs_checked
  else vs_unchecked.

End DynCheckbox.

(** The enhanced-only checkbox. *)
Module DynCheckboxEnhanced.
Import Js CheckboxTypes.

Definition validateCheckbox (p : props) (checked : bool) : list jsstring :=
  fold_left (validate_step checked) (validation p) [].

Definition handleChange (p : props) (newChecked : bool) (s : state)
  : state * list call :=
  if readonly p || disabled p || loading p then (s, [])
  else
    let s1 := set_checked newChecked s in
    let s2 := set_isIndeterminate false s1 in
    let s3 := set_hasInteracted true s2 in
    let errors := validateCheckbox p newChecked in
    let s4 := set_validationErrors errors s3 in
    (s4, if onChange p then [(newChecked, Some false)] else []).

Definition handleKeyDown (p : props) (key : jsstring) (s : state)
  : state * list call :=
  if is_toggle_key key then
    if readonly p || disabled p || loading p then (s, [])
    else
      let newChecked := negb (checked s) in
      let s1 := set_checked newChecked s in
      let s2 := set_isIndeterminate false s1 in
      let s3 := set_hasInteracted true s2 in
      let errors := validateCheckbox p newChecked in
      let s4 := set_validationErrors errors s3 in
      (s4, if onChange p then [(newChecked, Some false)] else [])
  else (s, []).

Definition effect_checkedProp (p : props) (s : state) : state :=
  match checkedProp p with
  | Some c => set_checked c s
  | None => s
  end.

Definition effect_indeterminate (p : props) (s : state) : state :=
  set_isIndeterminate (indeterminate p) s.

Definition mount (p : props) : instance :=
  let s0 := {| checked := match checkedProp p with
                          | Some c => c
                          | None => defaultChecked p
                          end;
               isIndeterminate := indeterminate p;
               validationErrors := [];
               hasInteracted := false |} in
  {| st := effect_indeterminate p (effect_checkedProp p s0);
     deps_checkedProp := checkedProp p;
     deps_indeterminate := (indeterminate p, true) |}.

Definition render (p : props) (i : instance) : instance :=
  let s1 := if option_bool_eqb (checkedProp p) (deps_checkedProp i)
            then st i else effect_checkedProp p (st i) in
  let s2 := if Bool.eqb (indeterminate p) (fst (deps_indeterminate i))
            then s1 else effect_indeterminate p s1 in
  {| st := s2; deps_checkedProp := checkedProp p;
     deps_indeterminate := (indeterminate p, true) |}.

Definition on_change (p : props) (newChecked : bool) (i : instance)
  : instance * list call :=
  let (s', calls) := handleChange p newChecked (st i) in
  ({| st := s'; deps_checkedProp := deps_checkedProp i;
      deps_indeterminate := deps_indeterminate i |}, calls).

Definition nativeToggle (p : props) (i : instance) : instance * list call :=
  on_change p (negb (checked (st i))) i.


Definition getVisualState (p : props) (s : state) : visual_state :=
  if loading p then vs_loading
  else if isIndeterminate s then vs_indeterminate
  else if checked s then vs_checked
  else vs_unchecked.

End DynCheckboxEnhanced.

(** ** The validation hook (hooks/use-enhanced-validation.ts) *)

Module Hook.
Import Js Eff.
Local Open Scope eff_scope.

(** The validated value has type [any]. *)
#[warnings="-register-all"] Inductive jsval : Type :=
| VUndefined
| VNull
| VBool (b : bool)
| VNum (n : Z)
| VStr (s : jsstring)
| VArr (items : list jsval).

(** [!!v] *)
Definition truthy_val (v : jsval) : bool :=
  match v with
  | VUndefined | VNull => false
  | VBool b => b
  | VNum n => negb (n =? 0)%Z
  | VStr s => truthy s
  | VArr _ => true
  end.

Inductive rule_type : Type :=
| required | email | phone | url | min | max | pattern | custom | async
(** anything else a caller may pass at run time *)
| other (name : jsstring).

Definition type_name (t : rule_type) : jsstring :=
  match t with
  | required => str "required" | email => str "email"
  | phone => str "phone" | url => str "url"
  | min => str "min" | max => str "max"
  | pattern => str "pattern" | custom => str "custom"
  | async => str "async" | other name => name
  end.

Record ValidationOptions := {
  validateOnChange : option bool;
  validateOnBlur : option bool;
  validateOnMount : option bool;
  debounceMs : option Z;
  stopOnFirstError : option bool
}.

Record RequiredOptions := {
  opt_validateOnChange : bool;
  opt_validateOnBlur : bool;
  opt_validateOnMount : bool;
  opt_debounceMs : Z;
  opt_stopOnFirstError : bool
}.

Definition DEFAULT_OPTIONS : RequiredOptions :=
  {| opt_validateOnChange := true;
     opt_validateOnBlur := true;
     opt_validateOnMount := false;
     opt_debounceMs := 300;
     opt_stopOnFirstError := false |}.

Definition or_default {A} (o : option A) (d : A) : A :=
  match o with Some a => a | None => d end.

(** [{ ...DEFAULT_OPTIONS, ...options }] *)
Definition merge_options (options : ValidationOptions) : RequiredOptions :=
  {| opt_validateOnChange :=
       or_default (validateOnChange options) (opt_validateOnChange DEFAULT_OPTIONS);
     opt_validateOnBlur :=
       or_default (validateOnBlur options) (opt_validateOnBlur DEFAULT_OPTIONS);
     opt_validateOnMount :=
       or_default (validateOnMount options) (opt_validateOnMount DEFAULT_OPTIONS);
     opt_debounceMs :=
       or_default (debounceMs options) (opt_debounceMs DEFAULT_OPTIONS);
     opt_stopOnFirstError :=
       or_default (stopOnFirstError options) (opt_stopOnFirstError DEFAULT_OPTIONS) |}.

(** The [useState] cells of the hook. *)
Record hook_state := {
  errors : list jsstring;
  customError : option jsstring;
  isValidating : bool;
  hasValidated : bool
}.

(** The computed part of [ValidationResult]. *)
Record ValidationResult := {
  isValid : bool;
  res_isValidating : bool;
  res_errors : list jsstring;
  hasError : bool;
  errorMessage : option jsstring
}.

(** [customError ? [customError] : []] *)
Definition if_present (customError : option jsstring) : list jsstring :=
  match customError with
  | Some e => if truthy e then [e] else []
  | None => []
  end.

Definition VALIDATORS_required (value : jsval) : bool :=
  match value with
  | VStr s => 0 <? length (trim s)
  | VArr items => 0 <? length items
  | VBool b => b
  | VUndefined | VNull => false
  | VNum _ => true
  end.

Definition VALIDATORS_min (value minValue : jsval) : bool :=
  match value, minValue with
  | VNum v, VNum m => (m <=? v)%Z
  | VStr s, VNum m => (m <=? Z.of_nat (length s))%Z
  | _, _ => false
  end.

Definition VALIDATORS_max (value maxValue : jsval) : bool :=
  match value, maxValue with
  | VNum v, VNum m => (v <=? m)%Z
  | VStr s, VNum m => (Z.of_nat (length s) <=? m)%Z
  | _, _ => false
  end.

Section Hook.
(** The type of the optional [formData] argument. *)
Variable FormData : Type.

Record ValidationRule := {
  type : rule_type;
  message : jsstring;
  value : jsval;
  rule_pattern : option (jsval -> outcome bool);
  customValidator : option (jsval -> option FormData -> outcome bool);
  (** the settlement of the promise the validator returns *)
  asyncValidator : option (jsval -> option FormData -> outcome bool);
  dependencies : list jsstring
}.

(** The regular-expression tests and the URL parser behind
    [VALIDATORS.email], [VALIDATORS.phone] and [VALIDATORS.url]; on a
    value that is no string they may throw. *)
Variables VALIDATORS_email VALIDATORS_phone VALIDATORS_url
  : jsval -> outcome bool.

Variable formData : option FormData.

(** [!currentValue || validator(currentValue)] *)
Definition unless_empty (currentValue : jsval) (test : eff bool) : eff bool :=
  if negb (truthy_val currentValue) then ret true else test.

(** [return isValid ? null : rule.message] *)
Definition conclude (rule : ValidationRule) (isValid : bool)
  : eff (option jsstring) :=
  ret (if isValid then None else Some (message rule)).

Definition validateRule (rule : ValidationRule) (currentValue : jsval)
  : eff (option jsstring) :=
  try_catch
    (match type rule with
     | required =>
       conclude rule (VALIDATORS_required currentValue)
     | email =>
       isValid <- unless_empty currentValue
                    (call (VALIDATORS_email currentValue)) ;;
       conclude rule isValid
     | phone =>
       isValid <- unless_empty currentValue
                    (call (VALIDATORS_phone currentValue)) ;;
       conclude rule isValid
     | url =>
       isValid <- unless_empty currentValue
                    (call (VALIDATORS_url currentValue)) ;;
       conclude rule isValid
     | min =>
       isValid <- unless_empty currentValue
                    (ret (VALIDATORS_min currentValue (value rule))) ;;
       conclude rule isValid
     | max =>
       isValid <- unless_empty currentValue
                    (ret (VALIDATORS_max currentValue (value rule))) ;;
       conclude rule isValid
     | pattern =>
       isValid <- unless_empty currentValue
                    (match rule_pattern rule with
                     | Some test => call (test currentValue)
                     | None => throw TypeError
                     end) ;;
       conclude rule isValid
     | custom =>
       match customValidator rule with
       | Some f =>
         isValid <- call (f currentValue formData) ;;
         conclude rule isValid
       | None => conclude rule false
       end
     | async =>
       match asyncValidator rule with
       | Some f =>
         isValid <- call (f currentValue formData) ;;
         conclude rule isValid
       | None => conclude rule false
       end
     | other name =>
       console_warn (str "Unknown validation rule type: " ++ name) ;;;
       ret None
     end)
    (fun error =>
       console_error
         (str "Validation error for rule " ++ type_name (type rule) ++ str ":")
         error ;;;
       ret (Some (message rule))).

(** The diagnostic the [catch] block writes for a rule. *)
Definition caught (rule : ValidationRule) (e : exn) : diag :=
  Error (str "Validation error for rule " ++ type_name (type rule) ++ str ":") e.

(** The rule's own validator throws (or its promise rejects) with [e]
    on value [v]. *)
Definition validator_throws (rule : ValidationRule) (v : jsval) (e : exn)
  : Prop :=
  (type rule = custom /\
   exists f, customValidator rule = Some f /\ f v formData = Thrown e)
  \/
  (type rule = async /\
   exists f, asyncValidator rule = Some f /\ f v formData = Thrown e).

(** A rule that produces no entry of the error list for value [v]. *)
Definition quiet (v : jsval) (rule : ValidationRule) : Prop :=
  forall console,
    fst (validateRule rule v console) = Returned None
    \/ fst (validateRule rule v console) = Returned (Some []).

Section Validate.
Variable value_ : jsval.
Variable rules : list ValidationRule.
Variable opts : RequiredOptions.

(** The loop over the rules, with its [break]; [if (error)] is a
    truthiness test. *)
Fixpoint validate_rules (rest : list ValidationRule)
    (newErrors : list jsstring) : eff (list jsstring) :=
  match rest with
  | [] => ret newErrors
  | rule :: rest' =>
    error <- validateRule rule value_ ;;
    match error with
    | Some e =>
      if truthy e then
        let newErrors' := newErrors ++ [e] in
        if opt_stopOnFirstError opts then ret newErrors'
        else validate_rules rest' newErrors'
      else validate_rules rest' newErrors
    | None => validate_rules rest' newErrors
    end
  end.

(** [validate()]: the boolean it resolves to and the state after
    its [set...] calls. *)
Definition validate (s : hook_state) : eff (bool * hook_state) :=
  if (length rules =? 0) && negb (truthy_opt (customError s)) then
    ret (true,
         {| errors := []; customError := customError s;
            isValidating := isValidating s;
            hasValidated := hasValidated s |})
  else
    newErrors <- validate_rules rules (if_present (customError s)) ;;
    ret (length newErrors =? 0,
         {| errors := newErrors; customError := customError s;
            isValidating := false; hasValidated := true |}).
End Validate.

Definition reset (s : hook_state) : hook_state :=
  {| errors := []; customError := None;
     isValidating := false; hasValidated := false |}.

Definition setCustomErrorHandler (error : option jsstring) (s : hook_state)
  : hook_state :=
  {| errors := errors s; customError := error;
     isValidating := isValidating s;
     hasValidated := if truthy_opt error then true else hasValidated s |}.

(** [[...(customError ? [customError] : []), ...errors]] *)
Definition allErrors (s : hook_state) : list jsstring :=
  if_present (customError s) ++ errors s.

Definition result (s : hook_state) : ValidationResult :=
  {| isValid := (length (allErrors s) =? 0) && negb (isValidating s);
     res_isValidating := isValidating s;
     res_errors := allErrors s;
     hasError := 0 <? length (allErrors s);
     errorMessage := nth_error (allErrors s) 0 |}.

Definition initial_state : hook_state :=
  {| errors := []; customError := None;
     isValidating := false; hasValidated := false |}.
End Hook.

End Hook.

(** ** The enhanced data table (dyn-table-enhanced.tsx) *)

Module Table.
Import Js.

Inductive direction : Type := asc | desc.

Record SortConfig := {
  sort_key : jsstring;
  sort_direction : direction
}.

(** [FilterConfig]: the entries of the object, in [Object.entries]
    order. *)
Definition FilterConfig : Type := list (jsstring * jsstring).

Record Pagination := {
  current : Z;
  pageSize : Z;
  total : Z
}.

Record SelectionState := {
  sel_checked : bool;
  sel_indeterminate : bool
}.

Definition jsstring_eqb (a b : jsstring) : bool :=
  if list_eq_dec ascii_dec a b then true else false.

(** [Array.prototype.slice(start, end)] on integer arguments. *)
Definition slice {A : Type} (l : list A) (start end_ : Z) : list A :=
  let len := Z.of_nat (length l) in
  let k := if (start <? 0)%Z then Z.max (len + start) 0 else Z.min start len in
  let final := if (end_ <? 0)%Z then Z.max (len + end_) 0 else Z.min end_ len in
  firstn (Z.to_nat (final - k)) (skipn (Z.to_nat k) l).

(** [Array.prototype.sort(comparefn)]: a stable sort; [a] is placed
    after [b] exactly when [comparefn(a, b) > 0].  For a consistent
    comparator the standard fixes the result - the stable sorted
    permutation, which this insertion sort computes.  For an
    inconsistent comparator the standard leaves the order to the engine:
    what is proved of the sort below then is only that it permutes. *)
Section Sort.
Variable A : Type.
Variable comparefn : A -> A -> Z.

Fixpoint insert (a : A) (sorted : list A) : list A :=
  match sorted with
  | [] => [a]
  | b :: rest =>
    if (comparefn a b <=? 0)%Z then a :: b :: rest
    else b :: insert a rest
  end.

Fixpoint sort (l : list A) : list A :=
  match l with
  | [] => []
  | a :: rest => insert a (sort rest)
  end.
(** [a] may stand before [b]. *)
Definition in_order (a b : A) : Prop := (comparefn a b <= 0)%Z.

End Sort.
Arguments in_order {A} comparefn a b.
Arguments insert {A} comparefn a sorted.
Arguments sort {A} comparefn l.

(** [Math.ceil(total / pageSize)] for a positive page size. *)
Definition ceil_div (total pageSize : Z) : Z := (- ((- total) / pageSize))%Z.

Section Table.
(** Records and the values of their fields. *)
Variables T V : Type.
(** [record[key]], [String(value)] and [a < b] on values. *)
Variable get : T -> jsstring -> V.
Variable String_ : V -> jsstring.
Variable js_lt : V -> V -> bool.

Record TableColumn := {
  key : jsstring;
  title : jsstring;
  dataIndex : option (jsstring + (T -> V));
  sortable : bool;
  filterable : bool
}.

Record SelectionConfig := {
  selectedRowKeys : list jsstring;
  (** whether the host passed an [onSelect] handler *)
  onSelect : bool;
  getRowKey : T -> jsstring
}.

(** A call of [onSelect(selectedKeys, selectedRows)]. *)
Definition select_call : Type := (list jsstring * list T)%type.

(** The derived value of a column for a record; [fallback] is the
    key used when the column has no (truthy) [dataIndex]. *)
Definition derived (column : TableColumn) (fallback : jsstring) (record : T)
  : V :=
  match dataIndex column with
  | Some (inr f) => f record
  | Some (inl k) => if truthy k then get record k else get record fallback
  | None => get record fallback
  end.

Definition find_column (columns : list TableColumn) (k : jsstring)
  : option TableColumn :=
  find (fun col => jsstring_eqb (key col) k) columns.

Definition handleRowSelect (rowSelection : option SelectionConfig)
    (dataSource : list T) (rowKey : jsstring) (selected : bool)
  : list select_call :=
  match rowSelection with
  | None => []
  | Some rs =>
    let newSelectedKeys :=
      if selected then selectedRowKeys rs ++ [rowKey]
      else filter (fun k => negb (jsstring_eqb k rowKey)) (selectedRowKeys rs) in
    let selectedRows :=
      filter (fun record =>
                existsb (jsstring_eqb (getRowKey rs record)) newSelectedKeys)
             dataSource in
    if onSelect rs then [(newSelectedKeys, selectedRows)] else []
  end.

Definition handleSelectAll (rowSelection : option SelectionConfig)
    (dataSource : list T) (selected : bool) : list select_call :=
  match rowSelection with
  | None => []
  | Some rs =>
    let allRowKeys := map (getRowKey rs) dataSource in
    let newSelectedKeys := if selected then allRowKeys else [] in
    let selectedRows := if selected then dataSource else [] in
    if onSelect rs then [(newSelectedKeys, selectedRows)] else []
  end.

Definition selectionState (rowSelection : option SelectionConfig)
    (dataSource : list T) : SelectionState :=
  match rowSelection with
  | None => {| sel_checked := false; sel_indeterminate := false |}
  | Some rs =>
    if length dataSource =? 0
    then {| sel_checked := false; sel_indeterminate := false |}
    else
      let selectedCount := length (selectedRowKeys rs) in
      let totalCount := length dataSource in
      {| sel_checked := selectedCount =? totalCount;
         sel_indeterminate :=
           (0 <? selectedCount) && (selectedCount <? totalCount) |}
  end.

(** The header checkbox: [checked] and [indeterminate] come from the
    selection state, [onChange] is [handleSelectAll], which takes the
    first argument of the call. *)
Definition headerCheckbox (rowSelection : option SelectionConfig)
    (dataSource : list T) : CheckboxTypes.props :=
  let selection := selectionState rowSelection dataSource in
  {| CheckboxTypes.checkedProp := Some (sel_checked selection);
     CheckboxTypes.defaultChecked := false;
     CheckboxTypes.disabled := false;
     CheckboxTypes.readonly := false;
     CheckboxTypes.indeterminate := sel_indeterminate selection;
     CheckboxTypes.label := None;
     CheckboxTypes.description := None;
     CheckboxTypes.feedback :=
       {| Feedback.error := None; Feedback.warning := None;
          Feedback.success := None |};
     CheckboxTypes.validation := [];
     CheckboxTypes.loading := false;
     CheckboxTypes.onChange := true |}.

(** The user toggles the header checkbox of a freshly rendered table:
    the calls of [onSelect] that follow. *)
Definition toggleHeader (rowSelection : option SelectionConfig)
    (dataSource : list T) : list select_call :=
  let p := headerCheckbox rowSelection dataSource in
  flat_map (fun c : CheckboxTypes.call =>
              handleSelectAll rowSelection dataSource (fst c))
           (snd (DynCheckboxEnhanced.nativeToggle p (DynCheckboxEnhanced.mount p))).

Section Pipeline.
Variable columns : list TableColumn.

(** The predicate of [result.filter] for one filter entry. *)
Definition matches (k filterValue : jsstring) (record : T) : bool :=
  match find_column columns k with
  | None => true
  | Some column =>
    includes (toLowerCase (String_ (derived column k record)))
             (toLowerCase filterValue)
  end.

(** A record passes the filter mapping: it matches every entry whose
    filter text is not empty. *)
Definition passes (internalFilters : FilterConfig) (record : T) : bool :=
  forallb (fun entry : jsstring * jsstring =>
             negb (truthy (snd entry))
             || matches (fst entry) (snd entry) record)
          internalFilters.

(** The body of the [forEach] over the filter entries. *)
Definition filter_entry (result : list T) (entry : jsstring * jsstring)
  : list T :=
  let (k, filterValue) := entry in
  if negb (truthy filterValue) then result
  else filter (matches k filterValue) result.

Definition applyFilters (internalFilters : FilterConfig)
    (dataSource : list T) : list T :=
  fold_left filter_entry internalFilters dataSource.

(** The comparator handed to [sort]. *)
Definition comparator (column : TableColumn) (k : jsstring)
    (dir : direction) (a b : T) : Z :=
  let aValue := derived column k a in
  let bValue := derived column k b in
  if js_lt aValue bValue then
    match dir with asc => (-1)%Z | desc => 1%Z end
  else if js_lt bValue aValue then
    match dir with asc => 1%Z | desc => (-1)%Z end
  else 0%Z.

Definition applySort (internalSortConfig : option SortConfig)
    (result : list T) : list T :=
  match internalSortConfig with
  | None => result
  | Some cfg =>
    match find_column columns (sort_key cfg) with
    | None => result
    | Some column =>
      sort (comparator column (sort_key cfg) (sort_direction cfg)) result
    end
  end.

Definition processedData (dataSource : list T)
    (internalFilters : FilterConfig)
    (internalSortConfig : option SortConfig) : list T :=
  applySort internalSortConfig (applyFilters internalFilters dataSource).

Definition paginatedData (pagination : option Pagination)
    (processed : list T) : list T :=
  match pagination with
  | None => processed
  | Some pg =>
    let start := ((current pg - 1) * pageSize pg)%Z in
    let end_ := (start + pageSize pg)%Z in
    slice processed start end_
  end.

(** The rows rendered for the given props and internal state. *)
Definition rows (dataSource : list T) (internalFilters : FilterConfig)
    (internalSortConfig : option SortConfig)
    (pagination : option Pagination) : list T :=
  paginatedData pagination
    (processedData dataSource internalFilters internalSortConfig).
End Pipeline.

(** "Page {current} of {Math.ceil(total / pageSize)}" *)
Definition pageCount (pg : Pagination) : Z :=
  ceil_div (total pg) (pageSize pg).

End Table.

Arguments key {T V} t.
Arguments title {T V} t.
Arguments dataIndex {T V} t.
Arguments sortable {T V} t.
Arguments filterable {T V} t.
Arguments Build_TableColumn {T V}.
Arguments selectedRowKeys {T} s.
Arguments onSelect {T} s.
Arguments getRowKey {T} s.
Arguments Build_SelectionConfig {T}.
Arguments derived {T V} get column fallback record.
Arguments find_column {T V} columns k.
Arguments handleRowSelect {T} rowSelection dataSource rowKey selected.
Arguments handleSelectAll {T} rowSelection dataSource selected.
Arguments selectionState {T} rowSelection dataSource.
Arguments headerCheckbox {T} rowSelection dataSource.
Arguments toggleHeader {T} rowSelection dataSource.
Arguments matches {T V} get String_ columns k filterValue record.
Arguments passes {T V} get String_ columns internalFilters record.
Arguments filter_entry {T V} get String_ columns result entry.
Arguments applyFilters {T V} get String_ columns internalFilters dataSource.
Arguments comparator {T V} get js_lt column k dir a b.
Arguments applySort {T V} get js_lt columns internalSortConfig result.
Arguments processedData {T V} get String_ js_lt columns dataSource
  internalFilters internalSortConfig.
Arguments paginatedData {T} pagination processed.
Arguments rows {T V} get String_ js_lt columns dataSource internalFilters
  internalSortConfig pagination.

End Table.

(** ** The token-key sanitizer (design-tokens/src/css-generator.ts) *)

Module Tokens.
Import Js.

Definition dash : ascii := "-"%char.

(** The characters of the class [[a-z0-9_-]]. *)
Definition allowed (c : ascii) : bool :=
  is_lower c || is_digit c || Ascii.eqb c "_" || Ascii.eqb c dash.

(** [.replace(/[^a-z0-9_-]/g, '-')] *)
Definition replaceInvalid (s : jsstring) : jsstring :=
  map (fun c => if allowed c then c else dash) s.

(** [.replace(/-+/g, '-')] *)
Fixpoint collapseDashes (s : jsstring) : jsstring :=
  match s with
  | [] => []
  | c :: s' =>
    if Ascii.eqb c dash then
      match s' with
      | d :: _ => if Ascii.eqb d dash then collapseDashes s'
                  else c :: collapseDashes s'
      | [] => [c]
      end
    else c :: collapseDashes s'
  end.

Definition dropLeadingDash (s : jsstring) : jsstring :=
  match s with
  | c :: s' => if Ascii.eqb c dash then s' else s
  | [] => []
  end.

(** [.replace(/^-|-$/g, '')]: the leading dash goes first, then the
    trailing dash of what is left. *)
Definition stripEdgeDashes (s : jsstring) : jsstring :=
  rev (dropLeadingDash (rev (dropLeadingDash s))).

Definition sanitizeTokenKey (key : jsstring) : jsstring :=
  stripEdgeDashes (collapseDashes (replaceInvalid (toLowerCase (trim key)))).

(** The sanitized form: only characters of [[a-z0-9_-]] (so nothing in
    upper case), no dash in front or at the end, no two dashes in a
    row. *)
Definition no_leading_dash (s : jsstring) : bool :=
  match s with
  | c :: _ => negb (Ascii.eqb c dash)
  | [] => true
  end.

Fixpoint no_double_dash (s : jsstring) : bool :=
  match s with
  | [] => true
  | c :: s' =>
    match s' with
    | d :: _ => negb (Ascii.eqb c dash && Ascii.eqb d dash) && no_double_dash s'
    | [] => true
    end
  end.

Definition sanitized (key : jsstring) : bool :=
  forallb allowed key
  && no_leading_dash key
  && no_leading_dash (rev key)
  && no_double_dash key.

End Tokens.

(** ** Sample inputs used by the examples *)

Module Samples.
Import Js Eff.

Definition always_valid (_ : Hook.jsval) : outcome bool := Returned true.

Definition always_true (_ : jsstring) : bool := true.

Definition broken_validator (_ : Hook.jsval) (_ : option unit) : outcome bool :=
  Thrown (str "boom").

Definition broken_rule (message : jsstring) : Hook.ValidationRule unit :=
  {| Hook.type := Hook.custom; Hook.message := message;
     Hook.value := Hook.VUndefined; Hook.rule_pattern := None;
     Hook.customValidator := Some broken_validator;
     Hook.asyncValidator := None; Hook.dependencies := [] |}.

Definition bare_rule (t : Hook.rule_type) (message : jsstring) : Hook.ValidationRule unit :=
  {| Hook.type := t; Hook.message := message;
     Hook.value := Hook.VUndefined; Hook.rule_pattern := None;
     Hook.customValidator := None;
     Hook.asyncValidator := None; Hook.dependencies := [] |}.

(** Sample props: a partially selected "select all" box. *)
Definition partial_box (readonly_ : bool) : CheckboxTypes.props :=
  {| CheckboxTypes.checkedProp := Some false;
     CheckboxTypes.defaultChecked := false;
     CheckboxTypes.disabled := false;
     CheckboxTypes.readonly := readonly_;
     CheckboxTypes.indeterminate := true;
     CheckboxTypes.label := None;
     CheckboxTypes.description := None;
     CheckboxTypes.feedback :=
       {| Feedback.error := None; Feedback.warning := None;
          Feedback.success := None |};
     CheckboxTypes.validation := [];
     CheckboxTypes.loading := false;
     CheckboxTypes.onChange := true |}.

(** A table of the numbers 1 to 25, ten to a page. *)
Definition sample_get (record : Z) (_ : jsstring) : Z := record.

Definition sample_String (v : Z) : jsstring :=
  if (v <? 10)%Z then str "low" else str "HIGH".

Definition sample_columns : list (Table.TableColumn Z Z) :=
  [ {| Table.key := str "id"; Table.title := str "Id";
       Table.dataIndex := None;
       Table.sortable := true; Table.filterable := true |} ].

Definition sample_data : list Z := map Z.of_nat (seq 1 25).

Definition sample_page (n : Z) : Table.Pagination :=
  {| Table.current := n; Table.pageSize := 10; Table.total := 25 |}.

Definition sample_rows (filters : Table.FilterConfig)
    (cfg : option Table.SortConfig)
    (pagination : option Table.Pagination) : list Z :=
  Table.rows sample_get sample_String Z.ltb sample_columns sample_data
    filters cfg pagination.

End Samples.

(** ** The dual-mode text input as a component (dyn-input.tsx) *)

Module DynInput.
Import Js.

Record props := {
  value : option jsstring;
  defaultValue : option jsstring;
  disabled : bool;
  readonly : bool;
  (** [validation], [mask] (a string mask), [showCleanButton], [loading] *)
  enhanced : InputValidation.props;
  validateOnChange : bool;
  validateOnBlur : bool;
  (** whether the host passed the handler *)
  onChange : bool;
  onBlur : bool;
  onFocus : bool;
  onClean : bool
}.

(** The [useState] cells. *)
Record state := {
  inputValue : jsstring;
  validationErrors : list jsstring;
  isFocused : bool;
  hasInteracted : bool
}.

(** What a handler does to the outside: calls of the host's handlers
    and the focus request sent to the native control. *)
Inductive host_call : Type :=
| OnChange (value : jsstring)
| OnBlur
| OnFocus
| OnClean
| FocusControl.

Inductive event : Type :=
| Change (raw : jsstring)
| Blur
| Focus
| Clean.

Definition set_inputValue (v : jsstring) (s : state) : state :=
  {| inputValue := v; validationErrors := validationErrors s;
     isFocused := isFocused s; hasInteracted := hasInteracted s |}.

Definition set_validationErrors (e : list jsstring) (s : state) : state :=
  {| inputValue := inputValue s; validationErrors := e;
     isFocused := isFocused s; hasInteracted := hasInteracted s |}.

Definition set_isFocused (b : bool) (s : state) : state :=
  {| inputValue := inputValue s; validationErrors := validationErrors s;
     isFocused := b; hasInteracted := hasInteracted s |}.

Definition set_hasInteracted (b : bool) (s : state) : state :=
  {| inputValue := inputValue s; validationErrors := validationErrors s;
     isFocused := isFocused s; hasInteracted := b |}.

Definition when (b : bool) (c : host_call) : list host_call :=
  if b then [c] else [].

Section Component.
Variables VALIDATORS_email VALIDATORS_phone VALIDATORS_url : jsstring -> bool.

Definition hasEnhancedFeatures (p : props) : bool :=
  InputValidation.hasEnhancedFeatures (enhanced p).

Definition maskPattern (p : props) : option jsstring :=
  InputValidation.mask (enhanced p).

Definition validateInput (p : props) (inputValue : jsstring) : list jsstring :=
  InputValidation.validateInput VALIDATORS_email VALIDATORS_phone
    VALIDATORS_url (enhanced p) inputValue.

(** [useState(value || defaultValue || '')], then the effect that copies
    a defined [value] prop into the state. *)
Definition mount (p : props) : state :=
  let fallback :=
    match defaultValue p with
    | Some d => d
    | None => []
    end in
  let initial :=
    match value p with
    | Some v => if truthy v then v else fallback
    | None => fallback
    end in
  {| inputValue := match value p with Some v => v | None => initial end;
     validationErrors := [];
     isFocused := false;
     hasInteracted := false |}.

(** [handleChange]: the closure sees the [hasInteracted] of the render
    in which it was created, that is, of the state before the event. *)
Definition handleChange (p : props) (raw : jsstring) (s : state)
  : state * list host_call :=
  let r := Mask.handleChange (maskPattern p) raw in
  let newValue := Mask.displayed r in
  let s1 := set_inputValue newValue s in
  let s2 :=
    if hasEnhancedFeatures p then
      let s' := set_hasInteracted true s1 in
      if validateOnChange p && hasInteracted s
      then set_validationErrors (validateInput p newValue) s'
      else s'
    else s1 in
  (s2, when (onChange p) (OnChange (Mask.reported r))).

Definition handleBlur (p : props) (s : state) : state * list host_call :=
  let s1 := set_isFocused false s in
  let s2 :=
    if hasEnhancedFeatures p then
      let s' := set_hasInteracted true s1 in
      if validateOnBlur p
      then set_validationErrors (validateInput p (inputValue s)) s'
      else s'
    else s1 in
  (s2, when (onBlur p) OnBlur).

Definition handleFocus (p : props) (s : state) : state * list host_call :=
  (set_isFocused true s, when (onFocus p) OnFocus).

Definition handleClean (p : props) (s : state) : state * list host_call :=
  let s1 := set_inputValue [] s in
  let s2 := if hasEnhancedFeatures p then set_validationErrors [] s1 else s1 in
  (s2, when (onChange p) (OnChange []) ++ when (onClean p) OnClean
       ++ [FocusControl]).

(** The imperative handle's [validate()]. *)
Definition ref_validate (p : props) (s : state) : bool * state :=
  if negb (hasEnhancedFeatures p) then (true, s)
  else
    let errors := validateInput p (inputValue s) in
    (length errors =? 0, set_validationErrors errors s).

(** [showCleanButton && inputValue && !readonly && !disabled] *)
Definition showCleanAction (p : props) (s : state) : bool :=
  InputValidation.showCleanButton (enhanced p) && truthy (inputValue s)
  && negb (readonly p) && negb (disabled p).

Definition step (p : props) (e : event) (s : state) : state * list host_call :=
  match e with
  | Change raw => handleChange p raw s
  | Blur => handleBlur p s
  | Focus => handleFocus p s
  | Clean => handleClean p s
  end.

(** A sequence of events on a component whose props stay the same. *)
Fixpoint run (p : props) (events : list event) (s : state)
  : state * list host_call :=
  match events with
  | [] => (s, [])
  | e :: rest =>
    let (s1, calls1) := step p e s in
    let (s2, calls2) := run p rest s1 in
    (s2, calls1 ++ calls2)
  end.
End Component.

End DynInput.

(** ** The checkboxes: blur and the imperative handle *)

Module DynCheckboxHandle.
Import Js CheckboxTypes.

(** Once the user has interacted, the error list is that of the current
    [checked]. *)
Definition errors_in_sync (validate : bool -> list jsstring) (s : state)
  : Prop :=
  hasInteracted s = true -> validationErrors s = validate (checked s).

Definition handleBlur (p : props) (s : state) : state :=
  if DynCheckbox.hasEnhancedFeatures p then
    set_validationErrors (DynCheckbox.validateCheckbox p (checked s))
      (set_hasInteracted true s)
  else s.

Definition toggle (p : props) (s : state) : state * list call :=
  if readonly p || disabled p || loading p then (s, [])
  else
    let newChecked := negb (checked s) in
    let s1 := set_checked newChecked s in
    if DynCheckbox.hasEnhancedFeatures p then
      (set_isIndeterminate false s1,
       if onChange p then [(newChecked, Some false)] else [])
    else (s1, if onChange p then [(newChecked, None)] else []).

Definition setChecked (p : props) (newChecked : bool) (s : state)
  : state * list call :=
  let s1 := set_checked newChecked s in
  if DynCheckbox.hasEnhancedFeatures p then
    (set_isIndeterminate false s1,
     if onChange p then [(newChecked, Some false)] else [])
  else (s1, if onChange p then [(newChecked, None)] else []).

(** Present on the handle only when the enhanced features are on. *)
Definition setIndeterminate (p : props) (newIndeterminate : bool) (s : state)
  : option (state * list call) :=
  if DynCheckbox.hasEnhancedFeatures p then
    Some (set_isIndeterminate newIndeterminate s,
          if onChange p then [(checked s, Some newIndeterminate)] else [])
  else None.

(** What the user can do to a mounted dual-mode checkbox. *)
Inductive event : Type :=
| Toggle
| Blur.

Definition step (p : props) (e : event) (s : state) : state :=
  match e with
  | Toggle => fst (DynCheckbox.handleChange p (negb (checked s)) s)
  | Blur => handleBlur p s
  end.

Definition run (p : props) (events : list event) (s : state) : state :=
  fold_left (fun s e => step p e s) events s.

End DynCheckboxHandle.

Module DynCheckboxEnhancedHandle.
Import Js CheckboxTypes.

Definition handleBlur (p : props) (s : state) : state :=
  set_validationErrors (DynCheckboxEnhanced.validateCheckbox p (checked s))
    (set_hasInteracted true s).

Definition toggle (p : props) (s : state) : state * list call :=
  if readonly p || disabled p || loading p then (s, [])
  else
    let newChecked := negb (checked s) in
    (set_isIndeterminate false (set_checked newChecked s),
     if onChange p then [(newChecked, Some false)] else []).

Definition setChecked (p : props) (newChecked : bool) (s : state)
  : state * list call :=
  (set_isIndeterminate false (set_checked newChecked s),
   if onChange p then [(newChecked, Some false)] else []).

Definition setIndeterminate (p : props) (newIndeterminate : bool) (s : state)
  : state * list call :=
  (set_isIndeterminate newIndeterminate s,
   if onChange p then [(checked s, Some newIndeterminate)] else []).

(** What the user can do to a mounted enhanced-only checkbox. *)
Inductive event : Type :=
| Toggle
| KeyDown (key : jsstring)
| Blur.

Definition step (p : props) (e : event) (s : state) : state :=
  match e with
  | Toggle => fst (DynCheckboxEnhanced.handleChange p (negb (checked s)) s)
  | KeyDown key => fst (DynCheckboxEnhanced.handleKeyDown p key s)
  | Blur => handleBlur p s
  end.

Definition run (p : props) (events : list event) (s : state) : state :=
  fold_left (fun s e => step p e s) events s.

End DynCheckboxEnhancedHandle.

(** ** The simple validation hook (hooks/use-enhanced-validation.ts) *)

Module HookSimple.
Import Js Hook.

(** The rule types whose built-in test is skipped on a falsy value
    ([!currentValue || ...]). *)
Definition skips_falsy (t : rule_type) : bool :=
  match t with
  | email | phone | url | min | max | pattern => true
  | _ => false
  end.

(** [useSimpleValidation(value, required, customValidator).validate()]:
    the boolean it returns and the [error] state it sets.  The custom
    validator gives a message or [undefined]. *)
Definition validate (value : jsval) (required : bool)
    (customValidator : option (jsval -> option jsstring))
  : bool * option jsstring :=
  if required && negb (VALIDATORS_required value) then
    (false, Some (str "This field is required"))
  else
    match customValidator with
    | Some f =>
      match f value with
      | Some customError =>
        if truthy customError then (false, Some customError) else (true, None)
      | None => (true, None)
      end
    | None => (true, None)
    end.

End HookSimple.

(** ** Class names (utils/classNames.ts) *)

Module ClassNames.
Import Js.

(** [Array.prototype.join] on strings. *)
Fixpoint join (separator : jsstring) (items : list jsstring) : jsstring :=
  match items with
  | [] => []
  | item :: rest =>
    match rest with
    | [] => item
    | _ :: _ => item ++ separator ++ join separator rest
    end
  end.

(** An argument of [cn]. *)
Inductive cn_input : Type :=
| CnString (s : jsstring)
| CnUndefined
| CnNull
| CnBoolean (b : bool)
| CnObject (entries : list (jsstring * bool)).

(** The body of the loop over the inputs. *)
Definition cn_step (classes : list jsstring) (input : cn_input)
  : list jsstring :=
  match input with
  | CnString s => if truthy s then classes ++ [s] else classes
  | CnObject entries =>
    fold_left (fun classes (entry : jsstring * bool) =>
                 if snd entry then classes ++ [fst entry] else classes)
              entries classes
  | CnUndefined | CnNull | CnBoolean _ => classes
  end.

Definition cn (inputs : list cn_input) : jsstring :=
  join (str " ") (fold_left cn_step inputs []).

(** The inputs a conditional expression leaves behind when its condition
    does not hold, and [true] itself. *)
Definition contributes_nothing (input : cn_input) : bool :=
  match input with
  | CnString s => negb (truthy s)
  | CnUndefined | CnNull | CnBoolean _ => true
  | CnObject entries => forallb (fun entry : jsstring * bool => negb (snd entry)) entries
  end.

End ClassNames.

(** ** The data table: sort header, selection, pagination controls *)

Module TableControls.
Import Js Table.

(** [handleSort]: the new sort configuration, which is both stored and
    handed to [onSortChange]. *)
Definition handleSort (internalSortConfig : option SortConfig)
    (columnKey : jsstring) : SortConfig :=
  {| sort_key := columnKey;
     sort_direction :=
       match internalSortConfig with
       | Some cfg =>
         if jsstring_eqb (sort_key cfg) columnKey
            && match sort_direction cfg with asc => true | desc => false end
         then desc else asc
       | None => asc
       end |}.

Definition opposite (d : direction) : direction :=
  match d with asc => desc | desc => asc end.

(** The selection the host holds after it has applied a reported key
    list. *)
Definition with_keys {T : Type} (rs : SelectionConfig T)
    (keys : list jsstring) : SelectionConfig T :=
  {| selectedRowKeys := keys; onSelect := onSelect rs;
     getRowKey := getRowKey rs |}.

(** [rowSelection.selectedRowKeys.includes(rowKey)] for a rendered row *)
Definition isSelected {T : Type} (rs : SelectionConfig T) (record : T) : bool :=
  existsb (jsstring_eqb (getRowKey rs record)) (selectedRowKeys rs).

(** "Showing {from} to {to} of {total} entries" *)
Definition showingFrom (pg : Pagination) : Z :=
  Z.min ((current pg - 1) * pageSize pg + 1) (total pg).

Definition showingTo (pg : Pagination) : Z :=
  Z.min (current pg * pageSize pg) (total pg).

(** The [disabled] attributes of the previous and next buttons. *)
Definition previousDisabled (pg : Pagination) : bool := (current pg =? 1)%Z.

Definition nextDisabled (pg : Pagination) : bool :=
  (pageCount pg <=? current pg)%Z.

(** The pagination props of page [n]. *)
Definition on_page (pg : Pagination) (n : Z) : Pagination :=
  {| current := n; pageSize := pageSize pg; total := total pg |}.

End TableControls.

(** ** Custom properties from the design tokens (css-generator.ts) *)

Module TokenCss.
Import Js Tokens.

Section Numbers.
(** JavaScript numbers and [String(n)] on them. *)
Variable number : Type.
Variable String_number : number -> jsstring.

Inductive TokenPrimitive : Type :=
| PString (s : jsstring)
| PNumber (n : number)
| PBoolean (b : bool).

(** A token group is given by its entries, in the order of
    [Object.entries]. *)
#[warnings="-register-all"] Inductive TokenValue : Type :=
| Primitive (p : TokenPrimitive)
| Items (items : list TokenPrimitive)
| Group (entries : list (jsstring * TokenValue)).

Definition TokenGroup : Type := list (jsstring * TokenValue).

(** [String(value)] *)
Definition String_ (value : TokenPrimitive) : jsstring :=
  match value with
  | PString s => s
  | PNumber n => String_number n
  | PBoolean b => if b then str "true" else str "false"
  end.

Definition normalizeValue (value : TokenPrimitive + list TokenPrimitive)
  : jsstring :=
  match value with
  | inr items => ClassNames.join (str ", ") (map String_ items)
  | inl p => String_ p
  end.

(** [`--dyn-${nextPrefix.join('-')}`] *)
Definition cssVar (nextPrefix : list jsstring) : jsstring :=
  str "--dyn-" ++ ClassNames.join (str "-") nextPrefix.

(** [`${cssVar}: ${normalizeValue(value)};`] *)
Definition declaration (nextPrefix : list jsstring)
    (value : TokenPrimitive + list TokenPrimitive) : jsstring :=
  cssVar nextPrefix ++ str ": " ++ normalizeValue value ++ str ";".

(** The callback that [toCSSVars] hands to [flatMap]. *)
Fixpoint toCSSVars_entry (prefix : list jsstring) (key : jsstring)
    (value : TokenValue) {struct value} : list jsstring :=
  let sanitizedKey := sanitizeTokenKey key in
  let nextPrefix := prefix ++ [sanitizedKey] in
  match value with
  | Items items => [declaration nextPrefix (inr items)]
  | Group record =>
    flat_map (fun entry => toCSSVars_entry nextPrefix (fst entry) (snd entry))
             record
  | Primitive p => [declaration nextPrefix (inl p)]
  end.

Definition toCSSVars (record : TokenGroup) (prefix : list jsstring)
  : list jsstring :=
  flat_map (fun entry => toCSSVars_entry prefix (fst entry) (snd entry)) record.

(** The number of primitive and array values below a value. *)
Fixpoint leaves (value : TokenValue) : nat :=
  match value with
  | Group record => list_sum (map (fun entry => leaves (snd entry)) record)
  | Primitive _ | Items _ => 1
  end.

(** Specification side: the primitive and array values below a value,
    each with the keys that lead down to it, in entry order. *)
Fixpoint value_leaves (value : TokenValue)
  : list (list jsstring * (TokenPrimitive + list TokenPrimitive)) :=
  match value with
  | Primitive p => [([], inl p)]
  | Items items => [([], inr items)]
  | Group record =>
    flat_map (fun entry =>
                map (fun leaf => (fst entry :: fst leaf, snd leaf))
                    (value_leaves (snd entry)))
             record
  end.

Definition group_leaves (record : TokenGroup)
  : list (list jsstring * (TokenPrimitive + list TokenPrimitive)) :=
  value_leaves (Group record).

End Numbers.

Arguments PString {number} s.
Arguments PNumber {number} n.
Arguments PBoolean {number} b.
Arguments Primitive {number} p.
Arguments Items {number} items.
Arguments Group {number} entries.
Arguments leaves {number} value.
Arguments value_leaves {number} value.
Arguments group_leaves {number} record.

End TokenCss.

(** ** Further sample inputs *)

Module MoreSamples.
Import Js.

(** An input with one [required] rule. *)
Definition required_input : DynInput.props :=
  {| DynInput.value := None; DynInput.defaultValue := None;
     DynInput.disabled := false; DynInput.readonly := false;
     DynInput.enhanced :=
       {| InputValidation.validation :=
            [ {| InputValidation.type := InputValidation.required;
                 InputValidation.message := str "Required";
                 InputValidation.value := None;
                 InputValidation.rule_pattern := None;
                 InputValidation.customValidator := None;
                 InputValidation.asyncValidator := None |} ];
          InputValidation.mask := None;
          InputValidation.showCleanButton := false;
          InputValidation.loading := false |};
     DynInput.validateOnChange := true; DynInput.validateOnBlur := true;
     DynInput.onChange := true; DynInput.onBlur := false;
     DynInput.onFocus := false; DynInput.onClean := false |}.

(** A checkbox that has to be ticked. *)
Definition terms_box : CheckboxTypes.props :=
  {| CheckboxTypes.checkedProp := None;
     CheckboxTypes.defaultChecked := true;
     CheckboxTypes.disabled := false;
     CheckboxTypes.readonly := false;
     CheckboxTypes.indeterminate := false;
     CheckboxTypes.label := Some (str "I accept");
     CheckboxTypes.description := None;
     CheckboxTypes.feedback :=
       {| Feedback.error := None; Feedback.warning := None;
          Feedback.success := None |};
     CheckboxTypes.validation :=
       [ {| CheckboxTypes.type := CheckboxTypes.required;
            CheckboxTypes.message := str "Must accept";
            CheckboxTypes.customValidator := None |} ];
     CheckboxTypes.loading := false;
     CheckboxTypes.onChange := true |}.

(** Three records keyed by their decimal digit, as [String(record)]
    gives for a number below ten. *)
Definition digit_key (record : Z) : jsstring :=
  [Ascii.ascii_of_nat (48 + Z.to_nat record)].

Definition three_records : list Z := [1%Z; 2%Z; 3%Z].

(** The sample table filtered by "Hi" on its id column and sorted by
    that column, descending. *)
Definition high_ids_descending : list Z :=
  Table.processedData Samples.sample_get Samples.sample_String Z.ltb
    Samples.sample_columns Samples.sample_data
    [(str "id", str "Hi")]
    (Some {| Table.sort_key := str "id"; Table.sort_direction := Table.desc |}).

Definition selection (keys : list jsstring) : Table.SelectionConfig Z :=
  {| Table.selectedRowKeys := keys; Table.onSelect := true;
     Table.getRowKey := digit_key |}.

End MoreSamples.

(* ================================================================= *)
(** * Part II. Properties *)
(* ================================================================= *)

(** ** Masking *)

Section MaskFacts.
Import Js Mask.

Example applyMask_phone :
  applyMask (str "1234567890") phoneMask = str "(123) 456-7890".
Proof. reflexivity. Qed.

Example applyMask_ssn_truncates :
  applyMask (stripNonDigits (str "abc123def456ghi")) (str "999-99-9999")
  = str "123-45-6".
Proof. reflexivity. Qed.

Example applyMask_letter_upper :
  applyMask (str "ab1") (str "AA-9") = str "AB-1".
Proof. reflexivity. Qed.

Lemma removeMask_app (a b mask : jsstring) :
  removeMask (a ++ b) mask = removeMask a mask ++ removeMask b mask.
Proof. unfold removeMask. apply filter_app. Qed.

Lemma has_true_iff (cs : list ascii) (c : ascii) :
  has cs c = true <-> In c cs.
Proof.
  unfold has. rewrite existsb_exists. split.
  - intros [x [Hin Heq]]. apply Ascii.eqb_eq in Heq. now subst.
  - intros Hin. exists c. split; [assumption | apply Ascii.eqb_refl].
Qed.

Lemma literal_is_removed (mask : jsstring) (c : ascii) :
  In c mask -> is_placeholder c = false -> removeMask [c] mask = [].
Proof.
  intros Hin Hlit. unfold removeMask. simpl.
  assert (Hhas : has (maskChars mask) c = true).
  { apply has_true_iff. unfold maskChars. apply filter_In.
    split; [assumption | now rewrite Hlit]. }
  now rewrite Hhas.
Qed.

Lemma digit_is_kept (mask : jsstring) (d : ascii) :
  digit_mask mask = true -> is_digit d = true -> removeMask [d] mask = [d].
Proof.
  intros Hmask Hd. unfold removeMask. simpl.
  destruct (has (maskChars mask) d) eqn:Hhas; [| reflexivity].
  exfalso. apply has_true_iff in Hhas. unfold maskChars in Hhas.
  apply filter_In in Hhas. destruct Hhas as [Hin Hlit].
  unfold digit_mask in Hmask. rewrite forallb_forall in Hmask.
  specialize (Hmask d Hin). unfold digit_mask_char in Hmask.
  apply negb_true_iff in Hlit.
  assert (Hslot : digit_slot d = false).
  { unfold digit_slot. unfold is_placeholder in Hlit.
    destruct (Ascii.eqb d "9"), (Ascii.eqb d "*"); simpl in *;
      try reflexivity; try discriminate.
    destruct (Ascii.eqb d "A"); discriminate. }
  rewrite Hslot, Hlit, Hd in Hmask. discriminate.
Qed.

(** What is left of the loop's result once the literals are removed:
    the accumulator's share, then as many input digits as the rest of
    the mask has slots. *)
Lemma removeMask_applyMask_loop (full : jsstring) :
  digit_mask full = true ->
  forall mask acc value,
    incl mask full ->
    forallb is_digit value = true ->
    removeMask (applyMask_loop acc value mask) full
    = removeMask acc full ++ firstn (slots mask) value.
Proof.
  intros Hfull. induction mask as [| c mask IH]; intros acc value Hincl Hdig.
  - simpl. now rewrite app_nil_r.
  - assert (Hc : In c full) by (apply Hincl; now left).
    assert (Hincl' : incl mask full).
    { intros x Hx. apply Hincl. now right. }
    destruct value as [| d value].
    + simpl. rewrite firstn_nil. now rewrite app_nil_r.
    + simpl in Hdig. apply andb_true_iff in Hdig. destruct Hdig as [Hd Hrest].
      assert (Hcm : digit_mask_char c = true).
      { unfold digit_mask in Hfull. rewrite forallb_forall in Hfull.
        now apply Hfull. }
      unfold slots. simpl. unfold digit_slot at 1.
      destruct (Ascii.eqb c "9") eqn:H9.
      * simpl. rewrite Hd. fold (slots mask).
        rewrite IH by assumption.
        rewrite removeMask_app, (digit_is_kept full d Hfull Hd).
        now rewrite <- app_assoc.
      * destruct (Ascii.eqb c "A") eqn:HA.
        { exfalso. unfold digit_mask_char, digit_slot, is_placeholder in Hcm.
          rewrite H9, HA in Hcm. simpl in Hcm.
          apply Ascii.eqb_eq in HA. subst c. discriminate. }
        destruct (Ascii.eqb c "*") eqn:Hstar.
        { simpl. fold (slots mask). rewrite IH by assumption.
          rewrite removeMask_app, (digit_is_kept full d Hfull Hd).
          now rewrite <- app_assoc. }
        simpl. fold (slots mask).
        rewrite IH by (simpl; try assumption; now rewrite Hd, Hrest).
        rewrite removeMask_app.
        rewrite (literal_is_removed full c Hc).
        { now rewrite app_nil_r. }
        unfold is_placeholder. now rewrite H9, HA, Hstar.
Qed.

(** For a digit mask with as many slots as the input has digits,
    unmasking the masked value gives the input back. *)
Lemma removeMask_applyMask (mask digits : jsstring) :
  digit_mask mask = true ->
  forallb is_digit digits = true ->
  slots mask = length digits ->
  removeMask (applyMask digits mask) mask = digits.
Proof.
  intros Hmask Hdig Hslots. unfold applyMask.
  rewrite (removeMask_applyMask_loop mask Hmask); try assumption.
  - simpl. rewrite Hslots. apply firstn_all.
  - apply incl_refl.
Qed.

(** Claim C1: the phone mask applied to "1234567890" displays
    "(123) 456-7890", unmasking that gives "1234567890" again (this is
    what the change handler shows and reports), and for every string of
    ten digits unmasking the masked value gives the string back. *)
Theorem mask_round_trip_phone (digits : jsstring)
    (Hlen : length digits = 10)
    (Hdigits : forallb is_digit digits = true) :
  applyMask (str "1234567890") phoneMask = str "(123) 456-7890"
  /\ removeMask (str "(123) 456-7890") phoneMask = str "1234567890"
  /\ handleChange (Some phoneMask) (str "1234567890")
     = {| displayed := str "(123) 456-7890"; reported := str "1234567890" |}
  /\ removeMask (applyMask digits phoneMask) phoneMask = digits.
Proof.
  repeat split; try reflexivity.
  apply removeMask_applyMask; [reflexivity | assumption |].
  now rewrite Hlen.
Qed.

Lemma mask_round_trip_phone_witness :
  removeMask (applyMask (str "9876543210") phoneMask) phoneMask
  = str "9876543210".
Proof.
  apply (mask_round_trip_phone (str "9876543210")); reflexivity.
Defined.

End MaskFacts.

(** ** Token keys *)

Section TokenFacts.
Import Js Tokens.

Example sanitize_dotted :
  sanitizeTokenKey (str "  Color.Primary 500 ") = str "color-primary-500".
Proof. reflexivity. Qed.

Example sanitize_edges : sanitizeTokenKey (str "--a__b--") = str "a__b".
Proof. reflexivity. Qed.

Example sanitize_only_dash : sanitizeTokenKey (str ".") = str "".
Proof. reflexivity. Qed.

Lemma allowed_not_space (c : ascii) : allowed c = true -> is_space c = false.
Proof.
  destruct c as [[] [] [] [] [] [] [] []]; intros H;
    try reflexivity; discriminate H.
Qed.

Lemma allowed_lower_fixed (c : ascii) : allowed c = true -> toLowerChar c = c.
Proof.
  destruct c as [[] [] [] [] [] [] [] []]; intros H;
    try reflexivity; discriminate H.
Qed.

Lemma forallb_rev {A} (f : A -> bool) (l : list A) :
  forallb f (rev l) = forallb f l.
Proof.
  induction l as [| a l IH]; [reflexivity |].
  simpl. rewrite forallb_app, IH. simpl.
  rewrite andb_true_r. apply andb_comm.
Qed.

Lemma trimStart_fixed (s : jsstring) :
  forallb allowed s = true -> trimStart s = s.
Proof.
  destruct s as [| c s]; [reflexivity |]. simpl. intros H.
  apply andb_true_iff in H. destruct H as [Hc _].
  now rewrite (allowed_not_space c Hc).
Qed.

Lemma trim_fixed (s : jsstring) : forallb allowed s = true -> trim s = s.
Proof.
  intros H. unfold trim, trimEnd.
  rewrite (trimStart_fixed s H).
  rewrite trimStart_fixed by (now rewrite forallb_rev).
  apply rev_involutive.
Qed.

Lemma toLowerCase_fixed (s : jsstring) :
  forallb allowed s = true -> toLowerCase s = s.
Proof.
  unfold toLowerCase. induction s as [| c s IH]; [reflexivity |].
  simpl. intros H. apply andb_true_iff in H. destruct H as [Hc Hs].
  now rewrite (allowed_lower_fixed c Hc), IH.
Qed.

Lemma replaceInvalid_fixed (s : jsstring) :
  forallb allowed s = true -> replaceInvalid s = s.
Proof.
  unfold replaceInvalid. induction s as [| c s IH]; [reflexivity |].
  simpl. intros H. apply andb_true_iff in H. destruct H as [Hc Hs].
  now rewrite Hc, IH.
Qed.

Lemma collapseDashes_fixed (s : jsstring) :
  no_double_dash s = true -> collapseDashes s = s.
Proof.
  induction s as [| c s IH]; [reflexivity |].
  intros H. simpl in H. destruct s as [| d s].
  - simpl. now destruct (Ascii.eqb c dash).
  - apply andb_true_iff in H. destruct H as [Hcd Hs].
    specialize (IH Hs).
    change (collapseDashes (c :: d :: s))
      with (if Ascii.eqb c dash
            then if Ascii.eqb d dash then collapseDashes (d :: s)
                 else c :: collapseDashes (d :: s)
            else c :: collapseDashes (d :: s)).
    rewrite IH.
    destruct (Ascii.eqb c dash), (Ascii.eqb d dash);
      try reflexivity; discriminate Hcd.
Qed.

Lemma dropLeadingDash_fixed (s : jsstring) :
  no_leading_dash s = true -> dropLeadingDash s = s.
Proof.
  destruct s as [| c s]; [reflexivity |]. simpl. intros H.
  now destruct (Ascii.eqb c dash).
Qed.

Lemma stripEdgeDashes_fixed (s : jsstring) :
  no_leading_dash s = true -> no_leading_dash (rev s) = true ->
  stripEdgeDashes s = s.
Proof.
  intros Hl Hr. unfold stripEdgeDashes.
  rewrite (dropLeadingDash_fixed s Hl), (dropLeadingDash_fixed (rev s) Hr).
  apply rev_involutive.
Qed.

(** Claim C9: a key already in sanitized form is returned unchanged by
    the sanitizer. *)
Theorem sanitizeTokenKey_sanitized_fixed (key : jsstring)
    (Hform : sanitized key = true) :
  sanitizeTokenKey key = key.
Proof.
  unfold sanitized in Hform.
  apply andb_true_iff in Hform. destruct Hform as [Hform Hdd].
  apply andb_true_iff in Hform. destruct Hform as [Hform Htrail].
  apply andb_true_iff in Hform. destruct Hform as [Hall Hlead].
  unfold sanitizeTokenKey.
  rewrite (trim_fixed key Hall), (toLowerCase_fixed key Hall).
  rewrite (replaceInvalid_fixed key Hall), (collapseDashes_fixed key Hdd).
  now apply stripEdgeDashes_fixed.
Qed.

Lemma sanitizeTokenKey_sanitized_fixed_witness :
  sanitizeTokenKey (str "color-primary_500") = str "color-primary_500".
Proof.
  apply (sanitizeTokenKey_sanitized_fixed (str "color-primary_500")).
  reflexivity.
Defined.

End TokenFacts.

(** ** The validation hook *)

Section HookFacts.
Import Js Eff Hook.

Variable FormData : Type.
Variables VALIDATORS_email VALIDATORS_phone VALIDATORS_url
  : jsval -> outcome bool.
Variable formData : option FormData.

Abbreviation Rule := (ValidationRule FormData).
Abbreviation validateRule :=
  (Hook.validateRule FormData VALIDATORS_email VALIDATORS_phone
     VALIDATORS_url formData).
Abbreviation validate_rules :=
  (Hook.validate_rules FormData VALIDATORS_email VALIDATORS_phone
     VALIDATORS_url formData).
Abbreviation validate :=
  (Hook.validate FormData VALIDATORS_email VALIDATORS_phone
     VALIDATORS_url formData).
Abbreviation caught := (Hook.caught FormData).
Abbreviation validator_throws := (Hook.validator_throws FormData formData).
Abbreviation quiet :=
  (Hook.quiet FormData VALIDATORS_email VALIDATORS_phone
     VALIDATORS_url formData).

Ltac run_eff :=
  unfold bind, conclude, unless_empty, call, ret, throw,
    console_warn, console_error; simpl.

(** Evaluating a rule always returns, and only adds to the console. *)
Lemma validateRule_returns (rule : Rule) (v : jsval) (console : list diag) :
  exists r more, validateRule rule v console = (Returned r, console ++ more).
Proof.
  unfold Hook.validateRule, try_catch.
  match goal with
  | |- context [match ?body console with _ => _ end] =>
    assert (Hbody :
      (exists r more, body console = (Returned r, console ++ more))
      \/ (exists e, body console = (Thrown e, console)))
  end.
  { destruct (type FormData rule); run_eff.
    - left. eexists. exists []. now rewrite app_nil_r.
    - destruct (truthy_val v); simpl.
      + destruct (VALIDATORS_email v).
        * left. eexists. exists []. now rewrite app_nil_r.
        * right. now eexists.
      + left. eexists. exists []. now rewrite app_nil_r.
    - destruct (truthy_val v); simpl.
      + destruct (VALIDATORS_phone v).
        * left. eexists. exists []. now rewrite app_nil_r.
        * right. now eexists.
      + left. eexists. exists []. now rewrite app_nil_r.
    - destruct (truthy_val v); simpl.
      + destruct (VALIDATORS_url v).
        * left. eexists. exists []. now rewrite app_nil_r.
        * right. now eexists.
      + left. eexists. exists []. now rewrite app_nil_r.
    - destruct (truthy_val v); simpl;
        left; eexists; exists []; now rewrite app_nil_r.
    - destruct (truthy_val v); simpl;
        left; eexists; exists []; now rewrite app_nil_r.
    - destruct (truthy_val v); simpl.
      + destruct (rule_pattern FormData rule) as [test |]; run_eff.
        * destruct (test v).
          -- left. eexists. exists []. now rewrite app_nil_r.
          -- right. now eexists.
        * right. now eexists.
      + left. eexists. exists []. now rewrite app_nil_r.
    - destruct (customValidator FormData rule) as [f |]; run_eff.
      + destruct (f v formData).
        * left. eexists. exists []. now rewrite app_nil_r.
        * right. now eexists.
      + left. eexists. exists []. now rewrite app_nil_r.
    - destruct (asyncValidator FormData rule) as [f |]; run_eff.
      + destruct (f v formData).
        * left. eexists. exists []. now rewrite app_nil_r.
        * right. now eexists.
      + left. eexists. exists []. now rewrite app_nil_r.
    - left. eexists. eexists. reflexivity. }
  destruct Hbody as [[r [more E]] | [e E]]; rewrite E.
  - now exists r, more.
  - run_eff. eexists. eexists. reflexivity.
Qed.

(** A throwing validator: the rule evaluates to its message and the
    diagnostic is logged. *)
Lemma validateRule_catches (rule : Rule) (v : jsval) (e : exn)
    (console : list diag) :
  validator_throws rule v e ->
  validateRule rule v console
  = (Returned (Some (message FormData rule)), console ++ [caught rule e]).
Proof.
  intros [[Ht [f [Hf He]]] | [Ht [f [Hf He]]]];
    unfold Hook.validateRule, try_catch, caught;
    rewrite Ht, Hf; run_eff; now rewrite He.
Qed.

(** A missing validator: the rule evaluates to its message. *)
Lemma validateRule_missing_validator (rule : Rule) (v : jsval)
    (console : list diag) :
  (type FormData rule = custom /\ customValidator FormData rule = None)
  \/ (type FormData rule = async /\ asyncValidator FormData rule = None) ->
  validateRule rule v console
  = (Returned (Some (message FormData rule)), console).
Proof.
  intros [[Ht Hf] | [Ht Hf]];
    unfold Hook.validateRule, try_catch; now rewrite Ht, Hf.
Qed.

Section Loop.
Variable value_ : jsval.
Variable opts : RequiredOptions.

(** The loop always returns; it only appends, to the error list and
    to the console. *)
Lemma validate_rules_extends (rest : list Rule) :
  forall newErrors console,
  exists more_errors more_console,
    validate_rules value_ opts rest newErrors console
    = (Returned (newErrors ++ more_errors), console ++ more_console).
Proof.
  induction rest as [| rule rest IH]; intros newErrors console.
  - exists [], []. simpl. unfold ret. now rewrite !app_nil_r.
  - simpl. unfold bind at 1.
    destruct (validateRule_returns rule value_ console) as [r [more E]].
    rewrite E.
    destruct r as [m |].
    + destruct (truthy m).
      * destruct (opt_stopOnFirstError opts).
        -- exists [m], more. reflexivity.
        -- destruct (IH (newErrors ++ [m]) (console ++ more))
             as [me [mc E']].
           rewrite E'. exists (m :: me), (more ++ mc).
           now rewrite <- !app_assoc.
      * destruct (IH newErrors (console ++ more)) as [me [mc E']].
        rewrite E'. exists me, (more ++ mc). now rewrite <- !app_assoc.
    + destruct (IH newErrors (console ++ more)) as [me [mc E']].
      rewrite E'. exists me, (more ++ mc). now rewrite <- !app_assoc.
Qed.

(** A rule whose validator throws and whose message is not empty is
    recorded, provided the loop reaches it. *)
Lemma validate_rules_records (rule : Rule) (e : exn) (after : list Rule) :
  validator_throws rule value_ e ->
  truthy (message FormData rule) = true ->
  forall before,
    (opt_stopOnFirstError opts = true -> Forall (quiet value_) before) ->
    forall newErrors console,
    exists errs console',
      validate_rules value_ opts (before ++ rule :: after) newErrors console
      = (Returned errs, console')
      /\ In (message FormData rule) errs
      /\ In (caught rule e) console'.
Proof.
  intros Hthrows Hmsg.
  induction before as [| r before IH]; intros Hquiet newErrors console.
  - simpl. unfold bind at 1.
    rewrite (validateRule_catches rule value_ e console Hthrows), Hmsg.
    destruct (opt_stopOnFirstError opts).
    + eexists. eexists. split; [reflexivity |].
      split; apply in_or_app; right; now left.
    + destruct (validate_rules_extends after
                  (newErrors ++ [message FormData rule])
                  (console ++ [caught rule e])) as [me [mc E]].
      rewrite E. eexists. eexists. split; [reflexivity |].
      split; apply in_or_app; left; apply in_or_app; right; now left.
  - simpl. unfold bind at 1.
    destruct (validateRule_returns r value_ console) as [x [more E]].
    assert (Hquiet' : opt_stopOnFirstError opts = true ->
                           Forall (quiet value_) before).
    { intros Hs. specialize (Hquiet Hs). now inversion Hquiet. }
    rewrite E. destruct x as [m |].
    + destruct (truthy m) eqn:Hm.
      * destruct (opt_stopOnFirstError opts) eqn:Hstop.
        -- exfalso. specialize (Hquiet eq_refl). inversion Hquiet as [| ? ? Hq _].
           specialize (Hq console). rewrite E in Hq. simpl in Hq.
           destruct Hq as [Hq | Hq]; inversion Hq. subst m. discriminate.
        -- apply IH. assumption.
      * apply IH. assumption.
    + apply IH. assumption.
Qed.
End Loop.

(** [validate()] always resolves. *)
Lemma validate_returns (v : jsval) (rules : list Rule)
    (opts : RequiredOptions) (s : hook_state) (console : list diag) :
  exists b s' console',
    validate v rules opts s console = (Returned (b, s'), console').
Proof.
  unfold Hook.validate.
  destruct ((length rules =? 0) && negb (truthy_opt (customError s))).
  - eexists. eexists. eexists. reflexivity.
  - unfold bind.
    destruct (validate_rules_extends v opts rules
                (if_present (customError s)) console) as [me [mc E]].
    rewrite E. eexists. eexists. eexists. reflexivity.
Qed.

(** [validate()] leaves the custom error as it is. *)
Lemma validate_keeps_customError (v : jsval) (rules : list Rule)
    (opts : RequiredOptions) (s s' : hook_state) (b : bool)
    (console console' : list diag) :
  validate v rules opts s console = (Returned (b, s'), console') ->
  customError s' = customError s.
Proof.
  unfold Hook.validate.
  destruct ((length rules =? 0) && negb (truthy_opt (customError s))).
  - unfold ret. intros H. inversion H. reflexivity.
  - unfold bind.
    destruct (validate_rules_extends v opts rules
                (if_present (customError s)) console) as [me [mc E]].
    rewrite E. unfold ret. intros H. inversion H. reflexivity.
Qed.

(** Claim C10: when [validate()] completes while a custom error is set,
    the stored error list begins with the custom error, and the list the
    hook returns prepends it once more: it holds the custom error at
    positions 0 and 1. *)
Theorem validate_duplicates_custom_error (v : jsval) (rules : list Rule)
    (opts : RequiredOptions) (s : hook_state) (console : list diag)
    (e : jsstring)
    (Hset : customError s = Some e) (Hpresent : truthy e = true) :
  exists s' console' rest,
    validate v rules opts s console = (Returned (false, s'), console')
    /\ customError s' = Some e
    /\ errors s' = e :: rest
    /\ res_errors (result s') = e :: e :: rest
    /\ nth_error (res_errors (result s')) 0 = Some e
    /\ nth_error (res_errors (result s')) 1 = Some e.
Proof.
  unfold Hook.validate. rewrite Hset. simpl. rewrite Hpresent.
  rewrite andb_false_r. unfold bind.
  destruct (validate_rules_extends v opts rules [e] console) as [me [mc E]].
  rewrite E. simpl.
  eexists. eexists. exists me. split; [reflexivity |].
  unfold result, allErrors. simpl. rewrite Hpresent. simpl.
  repeat split; reflexivity.
Qed.

(** Claim C5: a custom error that is present is the first entry of the
    returned error list, ahead of every rule-derived message, and
    [errorMessage] is that entry; this holds right after
    [setCustomError] and still after a later [validate()]. *)
Theorem custom_error_is_first (s : hook_state) (e : jsstring)
    (Hpresent : truthy e = true) :
  (customError s = Some e ->
     res_errors (result s) = e :: errors s
     /\ errorMessage (result s) = Some e)
  /\ (res_errors (result (setCustomErrorHandler (Some e) s)) = e :: errors s
      /\ errorMessage (result (setCustomErrorHandler (Some e) s)) = Some e)
  /\ (forall v rules opts console,
        exists b s' console',
          validate v rules opts (setCustomErrorHandler (Some e) s) console
          = (Returned (b, s'), console')
          /\ res_errors (result s') = e :: errors s'
          /\ errorMessage (result s') = Some e).
Proof.
  assert (Hfirst : forall s0, customError s0 = Some e ->
            res_errors (result s0) = e :: errors s0
            /\ errorMessage (result s0) = Some e).
  { intros s0 H0. unfold result, allErrors. simpl. rewrite H0. simpl.
    rewrite Hpresent. split; reflexivity. }
  split; [apply Hfirst |].
  split; [exact (Hfirst (setCustomErrorHandler (Some e) s) eq_refl) |].
  intros v rules opts console.
  destruct (validate_returns v rules opts (setCustomErrorHandler (Some e) s)
              console) as [b [s' [console' E]]].
  exists b, s', console'. split; [exact E |].
  apply Hfirst. now rewrite (validate_keeps_customError _ _ _ _ _ _ _ _ E).
Qed.

(** When a rule's validator throws or rejects, the exception is caught
    where the rule is evaluated, a diagnostic is logged and the
    evaluation yields the rule's message; [validate()] never lets an
    exception out; and a rule the loop reaches is entered in the error
    list with its message whenever that message is not empty. *)
Theorem throwing_validator_is_caught (rule : Rule) (v : jsval) (e : exn)
    (Hthrows : validator_throws rule v e) :
  (forall console,
     validateRule rule v console
     = (Returned (Some (message FormData rule)), console ++ [caught rule e]))
  /\ (forall rules opts s console,
        exists b s' console',
          validate v rules opts s console = (Returned (b, s'), console'))
  /\ (truthy (message FormData rule) = true ->
      forall before after opts s console,
        (opt_stopOnFirstError opts = true -> Forall (quiet v) before) ->
        exists s' console',
          validate v (before ++ rule :: after) opts s console
          = (Returned (false, s'), console')
          /\ In (message FormData rule) (errors s')
          /\ In (caught rule e) console').
Proof.
  split; [intros console; now apply validateRule_catches |].
  split; [intros; apply validate_returns |].
  intros Hmsg before after opts s console Hquiet.
  unfold Hook.validate.
  assert (Hlen : (length (before ++ rule :: after) =? 0) = false).
  { rewrite length_app. simpl. apply Nat.eqb_neq. lia. }
  rewrite Hlen. simpl. unfold bind.
  destruct (validate_rules_records v opts rule e after Hthrows Hmsg before
              Hquiet (if_present (customError s)) console)
    as [errs [console' [E [Hin Hlog]]]].
  rewrite E. unfold ret.
  assert (Hne : (length errs =? 0) = false).
  { destruct errs; [contradiction | reflexivity]. }
  rewrite Hne. eexists. eexists. split; [reflexivity |]. simpl. now split.
Qed.

End HookFacts.

(** Sample rules for the hook. *)
Section HookSamples.
Import Js Eff Hook Samples.

Lemma validate_duplicates_custom_error_witness :
  exists s' console' rest,
    validate unit always_valid always_valid always_valid None
      (VStr (str "a@b.c")) [bare_rule required (str "Required")]
      DEFAULT_OPTIONS
      (setCustomErrorHandler (Some (str "Taken")) initial_state) []
    = (Returned (false, s'), console')
    /\ customError s' = Some (str "Taken")
    /\ errors s' = str "Taken" :: rest
    /\ res_errors (result s') = str "Taken" :: str "Taken" :: rest
    /\ nth_error (res_errors (result s')) 0 = Some (str "Taken")
    /\ nth_error (res_errors (result s')) 1 = Some (str "Taken").
Proof.
  apply (validate_duplicates_custom_error unit always_valid always_valid
           always_valid None); reflexivity.
Defined.

Lemma custom_error_is_first_witness :
  res_errors (result (setCustomErrorHandler (Some (str "Taken")) initial_state))
  = [str "Taken"].
Proof.
  apply (custom_error_is_first unit always_valid always_valid always_valid None
           initial_state (str "Taken")).
  reflexivity.
Defined.

Lemma throwing_validator_is_caught_witness :
  validateRule unit always_valid always_valid always_valid None
    (broken_rule (str "Invalid")) (VStr (str "x")) []
  = (Returned (Some (str "Invalid")),
     [caught unit (broken_rule (str "Invalid")) (str "boom")]).
Proof.
  apply (throwing_validator_is_caught unit always_valid always_valid
           always_valid None (broken_rule (str "Invalid")) (VStr (str "x"))
           (str "boom")).
  left. split; [reflexivity |]. exists broken_validator.
  split; reflexivity.
Defined.

(** Claim C6, the failing input: a rule with an empty message whose
    validator throws.  The exception is caught and logged and the
    evaluation yields the message, but [validate()] tests it for
    truthiness before recording it: it resolves to [true] and the error
    list stays empty, so the rule is not recorded as failed. *)
Lemma throwing_validator_empty_message_not_recorded :
  validator_throws unit None (broken_rule []) (VStr (str "x")) (str "boom")
  /\ validate unit always_valid always_valid always_valid None
       (VStr (str "x")) [broken_rule []] DEFAULT_OPTIONS initial_state []
     = (Returned (true,
                  {| errors := []; customError := None;
                     isValidating := false; hasValidated := true |}),
        [caught unit (broken_rule []) (str "boom")]).
Proof.
  split; [| reflexivity].
  left. split; [reflexivity |]. exists broken_validator. split; reflexivity.
Qed.

End HookSamples.

(** ** Rules without their validator function *)

Section MissingValidatorFacts.
Import Js Eff Samples.

Example input_custom_rule_runs_validator :
  InputValidation.validateInput always_true always_true always_true
    {| InputValidation.validation :=
         [ {| InputValidation.type := InputValidation.custom;
              InputValidation.message := str "Forbidden";
              InputValidation.value := None;
              InputValidation.rule_pattern := None;
              InputValidation.customValidator := Some (fun _ => false);
              InputValidation.asyncValidator := None |} ];
       InputValidation.mask := None;
       InputValidation.showCleanButton := false;
       InputValidation.loading := false |}
    (str "forbidden")
  = [str "Forbidden"].
Proof. reflexivity. Qed.

Lemma input_validate_step_fold (email phone url : jsstring -> bool)
    (inputValue : jsstring) (rules : list InputValidation.ValidationRule) :
  Forall (fun rule => InputValidation.ruleIsValid email phone url rule inputValue
                      = true) rules ->
  forall errors,
    fold_left (InputValidation.validate_step email phone url inputValue)
      rules errors = errors.
Proof.
  induction 1 as [| rule rules Hrule _ IH]; intros errors; [reflexivity |].
  simpl. unfold InputValidation.validate_step at 2. rewrite Hrule. simpl.
  apply IH.
Qed.

Lemma checkbox_validate_step_fold (checked : bool)
    (rules : list CheckboxTypes.ValidationRule) :
  Forall (fun rule => CheckboxTypes.ruleIsValid rule checked = true) rules ->
  forall errors,
    fold_left (CheckboxTypes.validate_step checked) rules errors = errors.
Proof.
  induction 1 as [| rule rules Hrule _ IH]; intros errors; [reflexivity |].
  simpl. unfold CheckboxTypes.validate_step at 2. rewrite Hrule. simpl.
  apply IH.
Qed.

(** The inline validator of the input assigns nothing to [isValid] for
    an [async] rule, whatever the rule carries: its message is always
    pushed. *)
Remark input_async_rule_always_fails (email phone url : jsstring -> bool)
    (rule : InputValidation.ValidationRule) (inputValue : jsstring)
    (errors : list jsstring) :
  InputValidation.type rule = InputValidation.async ->
  InputValidation.validate_step email phone url inputValue errors rule
  = errors ++ [InputValidation.message rule].
Proof.
  intros Ht. unfold InputValidation.validate_step, InputValidation.ruleIsValid.
  now rewrite Ht.
Qed.

(** Claim C2, as amended: a [custom] rule without its [customValidator]
    produces no message in the inline validators of the dual-mode input
    and checkbox, alone or among other rules of that kind; in the
    validation hook a [custom] rule without [customValidator] and an
    [async] rule without [asyncValidator] evaluate to the rule's
    message, that is, to a failure. *)
Theorem missing_validator_evaluation (FormData : Type)
    (irule : InputValidation.ValidationRule)
    (crule : CheckboxTypes.ValidationRule)
    (hrule : Hook.ValidationRule FormData)
    (Hinput : InputValidation.type irule = InputValidation.custom
              /\ InputValidation.customValidator irule = None)
    (Hcheckbox : CheckboxTypes.type crule = CheckboxTypes.custom
                 /\ CheckboxTypes.customValidator crule = None)
    (Hhook : (Hook.type FormData hrule = Hook.custom
              /\ Hook.customValidator FormData hrule = None)
             \/ (Hook.type FormData hrule = Hook.async
                 /\ Hook.asyncValidator FormData hrule = None)) :
  (forall email phone url inputValue errors,
     InputValidation.validate_step email phone url inputValue errors irule
     = errors)
  /\ (forall email phone url p inputValue,
        (forall r, In r (InputValidation.validation p) -> r = irule) ->
        InputValidation.validateInput email phone url p inputValue = [])
  /\ (forall email phone url validation inputValue,
        (forall r, In r validation -> r = irule) ->
        InputValidation.validateInput_enhanced email phone url validation
          inputValue = [])
  /\ (forall checked errors,
        CheckboxTypes.validate_step checked errors crule = errors)
  /\ (forall p checked,
        (forall r, In r (CheckboxTypes.validation p) -> r = crule) ->
        DynCheckbox.validateCheckbox p checked = [])
  /\ (forall p checked,
        (forall r, In r (CheckboxTypes.validation p) -> r = crule) ->
        DynCheckboxEnhanced.validateCheckbox p checked = [])
  /\ (forall email phone url formData v console,
        Hook.validateRule FormData email phone url formData hrule v console
        = (Returned (Some (Hook.message FormData hrule)), console)).
Proof.
  destruct Hinput as [Hit Hiv]. destruct Hcheckbox as [Hct Hcv].
  assert (Hi : forall email phone url inputValue,
             InputValidation.ruleIsValid email phone url irule inputValue = true).
  { intros. unfold InputValidation.ruleIsValid. rewrite Hit, Hiv.
    apply orb_true_r. }
  assert (Hc : forall checked, CheckboxTypes.ruleIsValid crule checked = true).
  { intros. unfold CheckboxTypes.ruleIsValid. now rewrite Hct, Hcv. }
  split.
  { intros. unfold InputValidation.validate_step. now rewrite Hi. }
  split.
  { intros email phone url p inputValue Hp.
    unfold InputValidation.validateInput.
    destruct (_ || _); [reflexivity |].
    apply input_validate_step_fold. apply Forall_forall.
    intros r Hr. rewrite (Hp r Hr). apply Hi. }
  split.
  { intros email phone url validation inputValue Hp.
    unfold InputValidation.validateInput_enhanced.
    apply input_validate_step_fold. apply Forall_forall.
    intros r Hr. rewrite (Hp r Hr). apply Hi. }
  split.
  { intros. unfold CheckboxTypes.validate_step. now rewrite Hc. }
  split.
  { intros p checked Hp. unfold DynCheckbox.validateCheckbox.
    destruct (_ || _); [reflexivity |].
    apply checkbox_validate_step_fold. apply Forall_forall.
    intros r Hr. rewrite (Hp r Hr). apply Hc. }
  split.
  { intros p checked Hp. unfold DynCheckboxEnhanced.validateCheckbox.
    apply checkbox_validate_step_fold. apply Forall_forall.
    intros r Hr. rewrite (Hp r Hr). apply Hc. }
  intros. now apply validateRule_missing_validator.
Qed.

Lemma missing_validator_evaluation_witness :
  InputValidation.validate_step always_true always_true always_true
    (str "abc") []
    {| InputValidation.type := InputValidation.custom;
       InputValidation.message := str "Forbidden";
       InputValidation.value := None;
       InputValidation.rule_pattern := None;
       InputValidation.customValidator := None;
       InputValidation.asyncValidator := None |}
  = [].
Proof.
  apply (missing_validator_evaluation unit
           {| InputValidation.type := InputValidation.custom;
              InputValidation.message := str "Forbidden";
              InputValidation.value := None;
              InputValidation.rule_pattern := None;
              InputValidation.customValidator := None;
              InputValidation.asyncValidator := None |}
           {| CheckboxTypes.type := CheckboxTypes.custom;
              CheckboxTypes.message := str "Must accept";
              CheckboxTypes.customValidator := None |}
           (bare_rule Hook.async (str "Email exists"))).
  - split; reflexivity.
  - split; reflexivity.
  - right. split; reflexivity.
Defined.

(** Claim C2 as stated fails.  In the validation hook a [custom] rule
    without [customValidator] and an [async] rule without
    [asyncValidator] are reported with their message, and [validate()]
    resolves to [false]; the inline validator of the dual-mode input
    reports an [async] rule without [asyncValidator] as well. *)
Lemma hook_missing_validator_is_failure :
  Hook.validate unit always_valid always_valid always_valid None
    (Hook.VStr (str "x"))
    [bare_rule Hook.custom (str "Must agree");
     bare_rule Hook.async (str "Email exists")]
    Hook.DEFAULT_OPTIONS (Hook.initial_state) []
  = (Returned (false,
               {| Hook.errors := [str "Must agree"; str "Email exists"];
                  Hook.customError := None;
                  Hook.isValidating := false;
                  Hook.hasValidated := true |}),
     [])
  /\ InputValidation.validateInput always_true always_true always_true
       {| InputValidation.validation :=
            [ {| InputValidation.type := InputValidation.async;
                 InputValidation.message := str "Email exists";
                 InputValidation.value := None;
                 InputValidation.rule_pattern := None;
                 InputValidation.customValidator := None;
                 InputValidation.asyncValidator := None |} ];
          InputValidation.mask := None;
          InputValidation.showCleanButton := false;
          InputValidation.loading := false |}
       (str "x")
     = [str "Email exists"].
Proof. split; reflexivity. Qed.

End MissingValidatorFacts.

(** ** Feedback priority *)

Section FeedbackFacts.
Import Js Feedback.

(** Claim C7: the feedback flags give error priority over warning and
    warning over success.  An error prop (non-empty) or a live validation
    error switches the error flag on and the other two off; without an
    error, a warning switches the warning flag on and success off;
    without either, success decides; no two flags are on together. *)
Theorem feedback_priority (p : feedback_props)
    (validationErrors : list jsstring) :
  (truthy_opt (error p) = true \/ validationErrors <> [] ->
     hasError p validationErrors = true
     /\ hasWarning p validationErrors = false
     /\ hasSuccess p validationErrors = false)
  /\ (truthy_opt (error p) = false -> validationErrors = [] ->
      truthy_opt (warning p) = true ->
      hasError p validationErrors = false
      /\ hasWarning p validationErrors = true
      /\ hasSuccess p validationErrors = false)
  /\ (truthy_opt (error p) = false -> validationErrors = [] ->
      truthy_opt (warning p) = false ->
      hasError p validationErrors = false
      /\ hasWarning p validationErrors = false
      /\ hasSuccess p validationErrors = truthy_opt (success p))
  /\ (hasError p validationErrors && hasWarning p validationErrors = false
      /\ hasError p validationErrors && hasSuccess p validationErrors = false
      /\ hasWarning p validationErrors && hasSuccess p validationErrors = false).
Proof.
  unfold hasSuccess, hasWarning, hasError.
  assert (Hlive : validationErrors <> [] ->
                  (0 <? length validationErrors) = true).
  { destruct validationErrors; [intros H; now contradiction H | reflexivity]. }
  destruct (truthy_opt (error p)) eqn:He,
           (truthy_opt (warning p)) eqn:Hw,
           (truthy_opt (success p)) eqn:Hs;
    (split; [intros [Hx | Hx];
             [try discriminate Hx | rewrite (Hlive Hx)]; simpl; auto |]);
    (split; [intros Hx Hnil Hy; try discriminate; subst; simpl; auto |]);
    (split; [intros Hx Hnil Hy; try discriminate; subst; simpl; auto |]);
    destruct (0 <? length validationErrors); simpl; auto.
Qed.

(** With all three messages supplied only the error flag is on; taking
    the error away turns the warning flag on; taking both away turns the
    success flag on. *)
Lemma feedback_priority_witness :
  (hasError {| error := Some (str "E"); warning := Some (str "W");
               success := Some (str "S") |} [] = true
   /\ hasWarning {| error := Some (str "E"); warning := Some (str "W");
                    success := Some (str "S") |} [] = false
   /\ hasSuccess {| error := Some (str "E"); warning := Some (str "W");
                    success := Some (str "S") |} [] = false)
  /\ (hasError {| error := None; warning := Some (str "W");
                  success := Some (str "S") |} [] = false
      /\ hasWarning {| error := None; warning := Some (str "W");
                       success := Some (str "S") |} [] = true
      /\ hasSuccess {| error := None; warning := Some (str "W");
                       success := Some (str "S") |} [] = false)
  /\ (hasError {| error := None; warning := None;
                  success := Some (str "S") |} [] = false
      /\ hasWarning {| error := None; warning := None;
                       success := Some (str "S") |} [] = false
      /\ hasSuccess {| error := None; warning := None;
                       success := Some (str "S") |} [] = true).
Proof.
  split; [| split].
  - apply (feedback_priority
             {| error := Some (str "E"); warning := Some (str "W");
                success := Some (str "S") |} []).
    left. reflexivity.
  - apply (feedback_priority
             {| error := None; warning := Some (str "W");
                success := Some (str "S") |} []); reflexivity.
  - apply (proj1 (proj2 (proj2 (feedback_priority
             {| error := None; warning := None;
                success := Some (str "S") |} [])))); reflexivity.
Defined.

End FeedbackFacts.

(** ** The indeterminate state of the checkboxes *)

Section CheckboxFacts.
Import Js CheckboxTypes Samples.












End CheckboxFacts.

(** ** The data table: header selection *)

Section TableSelectionFacts.
Import Js Table.

Variables T : Type.

(** Claim C3, as amended: with [rowSelection] configured the header
    checkbox is checked exactly when the data source is not empty and
    there are as many selected keys as records, and indeterminate
    exactly when the number of selected keys lies strictly between 0 and
    the number of records; selecting or deselecting all reports, through
    [onSelect], the key of every record of the data source or the empty
    list, and so does a toggle of the header checkbox. *)
Theorem header_selection_state (rs : SelectionConfig T)
    (dataSource : list T) :
  let state := selectionState (Some rs) dataSource in
  let selectedCount := length (selectedRowKeys rs) in
  let totalCount := length dataSource in
  (sel_checked state = true <-> dataSource <> [] /\ selectedCount = totalCount)
  /\ (sel_indeterminate state = true
      <-> 0 < selectedCount /\ selectedCount < totalCount)
  /\ (forall selected,
        handleSelectAll (Some rs) dataSource selected
        = if onSelect rs
          then [(if selected then map (getRowKey rs) dataSource else [],
                 if selected then dataSource else [])]
          else [])
  /\ (toggleHeader (Some rs) dataSource
      = if onSelect rs
        then [if sel_checked state then ([], [])
              else (map (getRowKey rs) dataSource, dataSource)]
        else []).
Proof.
  cbv zeta. unfold selectionState.
  split; [| split; [| split]].
  - destruct dataSource as [| r rest]; simpl.
    + split; [discriminate | intros [H _]; now contradiction H].
    + rewrite Nat.eqb_eq. split; [intros H; split; [discriminate | exact H] |].
      now intros [_ H].
  - destruct dataSource as [| r rest]; simpl.
    + split; [discriminate | intros [_ H]; lia].
    + rewrite andb_true_iff, !Nat.ltb_lt. reflexivity.
  - intros selected. simpl. destruct (onSelect rs), selected; reflexivity.
  - unfold toggleHeader, DynCheckboxEnhanced.nativeToggle,
      DynCheckboxEnhanced.on_change, DynCheckboxEnhanced.handleChange.
    simpl. rewrite app_nil_r.
    destruct (onSelect rs); [| reflexivity].
    destruct (length dataSource =? 0); simpl; [reflexivity |].
    destruct (length (selectedRowKeys rs) =? length dataSource); reflexivity.
Qed.

End TableSelectionFacts.

(** Claim C3 as stated fails on an empty data source: the number of
    selected keys equals the number of records (both are 0), yet the
    header checkbox is not checked. *)
Lemma empty_table_header_not_checked :
  length (Table.selectedRowKeys
            {| Table.selectedRowKeys := []; Table.onSelect := true;
               Table.getRowKey := fun n : nat => Js.str "row" |})
  = length (@nil nat)
  /\ Table.sel_checked
       (Table.selectionState
          (Some {| Table.selectedRowKeys := []; Table.onSelect := true;
                   Table.getRowKey := fun n : nat => Js.str "row" |})
          (@nil nat)) = false.
Proof. split; reflexivity. Qed.

(** ** The data table: filter, sort, paginate *)

Section SortFacts.
Import Table.

Variable A : Type.
Variable comparefn : A -> A -> Z.

Lemma insert_permutation (a : A) (l : list A) :
  Permutation (insert comparefn a l) (a :: l).
Proof.
  induction l as [| b l IH]; simpl; [apply Permutation_refl |].
  destruct (comparefn a b <=? 0)%Z; [apply Permutation_refl |].
  apply perm_trans with (b :: a :: l); [now apply perm_skip | apply perm_swap].
Qed.

Lemma sort_permutation (l : list A) : Permutation (sort comparefn l) l.
Proof.
  induction l as [| a l IH]; simpl; [apply perm_nil |].
  apply perm_trans with (a :: sort comparefn l);
    [apply insert_permutation | now apply perm_skip].
Qed.

(** A comparator that is consistent on the elements that satisfy [P]:
    [a] comes after [b] exactly when [b] comes before [a], and "may
    stand before" is transitive. *)
Variable P : A -> Prop.
Hypothesis comparefn_flip :
  forall a b, P a -> P b -> (0 < comparefn a b)%Z <-> (comparefn b a < 0)%Z.
Hypothesis comparefn_trans :
  forall a b d, P a -> P b -> P d ->
    in_order comparefn a b -> in_order comparefn b d -> in_order comparefn a d.

Lemma comparefn_tie_sym (a b : A) :
  P a -> P b -> comparefn a b = 0%Z -> comparefn b a = 0%Z.
Proof.
  intros Ha Hb Hab.
  pose proof (comparefn_flip a b Ha Hb). pose proof (comparefn_flip b a Hb Ha).
  lia.
Qed.

Lemma comparefn_tie_refl (a : A) : P a -> comparefn a a = 0%Z.
Proof. intros Ha. pose proof (comparefn_flip a a Ha Ha). lia. Qed.

(** An element tied with [a] is not among those [a] is moved past. *)
Lemma comparefn_tie_after (x a b : A) :
  P x -> P a -> P b ->
  comparefn x a = 0%Z -> (0 < comparefn a b)%Z -> comparefn x b <> 0%Z.
Proof.
  intros Hx Ha Hb Hxa Hab Hxb.
  pose proof (comparefn_tie_sym x a Hx Ha Hxa) as Hax.
  assert (H : in_order comparefn a b).
  { apply (comparefn_trans a x b Ha Hx Hb); unfold in_order; lia. }
  unfold in_order in H. lia.
Qed.

Lemma insert_strongly_sorted (a : A) (l : list A) :
  P a -> Forall P l ->
  StronglySorted (in_order comparefn) l ->
  StronglySorted (in_order comparefn) (insert comparefn a l).
Proof.
  intros Ha. induction l as [| b l IH]; intros HP Hs; simpl.
  - constructor; constructor.
  - inversion HP as [| ? ? Hb HPl]; subst.
    inversion Hs as [| ? ? Hsl Hbl]; subst.
    destruct (comparefn a b <=? 0)%Z eqn:Hab.
    + apply Z.leb_le in Hab. constructor; [exact Hs |].
      constructor; [exact Hab |].
      rewrite Forall_forall in *. intros x Hx.
      apply (comparefn_trans a b x Ha Hb (HPl x Hx) Hab (Hbl x Hx)).
    + apply Z.leb_gt in Hab. constructor; [now apply IH |].
      apply (Permutation_Forall (Permutation_sym (insert_permutation a l))).
      constructor; [| exact Hbl].
      apply (comparefn_flip a b Ha Hb) in Hab. unfold in_order. lia.
Qed.

Lemma sort_Forall (l : list A) : Forall P l -> Forall P (sort comparefn l).
Proof.
  apply Permutation_Forall, Permutation_sym, sort_permutation.
Qed.

Lemma sort_strongly_sorted (l : list A) :
  Forall P l -> StronglySorted (in_order comparefn) (sort comparefn l).
Proof.
  induction l as [| a l IH]; intros HP; simpl; [constructor |].
  inversion HP; subst.
  apply insert_strongly_sorted; [assumption | now apply sort_Forall | now apply IH].
Qed.

Lemma insert_ties (x a : A) (l : list A) :
  P x -> P a -> Forall P l ->
  filter (fun y => comparefn x y =? 0)%Z (insert comparefn a l)
  = if (comparefn x a =? 0)%Z
    then a :: filter (fun y => comparefn x y =? 0)%Z l
    else filter (fun y => comparefn x y =? 0)%Z l.
Proof.
  intros Hx Ha. induction l as [| b l IH]; intros HP; simpl.
  - reflexivity.
  - inversion HP as [| ? ? Hb HPl]; subst.
    destruct (comparefn a b <=? 0)%Z eqn:Hab; [reflexivity |].
    apply Z.leb_gt in Hab. simpl. rewrite (IH HPl).
    destruct (comparefn x a =? 0)%Z eqn:Hxa; [| reflexivity].
    apply Z.eqb_eq in Hxa.
    pose proof (comparefn_tie_after x a b Hx Ha Hb Hxa Hab) as Hxb.
    apply Z.eqb_neq in Hxb. now rewrite Hxb.
Qed.

(** The sort is stable: the elements tied with [x] keep their order. *)
Lemma sort_stable (x : A) (l : list A) :
  P x -> Forall P l ->
  filter (fun y => comparefn x y =? 0)%Z (sort comparefn l)
  = filter (fun y => comparefn x y =? 0)%Z l.
Proof.
  intros Hx. induction l as [| a l IH]; intros HP; [reflexivity |].
  inversion HP as [| ? ? Ha HPl]; subst. simpl.
  rewrite (insert_ties x a _ Hx Ha (sort_Forall l HPl)), (IH HPl).
  reflexivity.
Qed.

(** A permutation that is in order and keeps the order of tied elements
    is determined. *)
Lemma stable_sorted_unique (l1 : list A) :
  forall l2,
    Forall P l1 ->
    Permutation l1 l2 ->
    StronglySorted (in_order comparefn) l1 ->
    StronglySorted (in_order comparefn) l2 ->
    (forall x, P x ->
       filter (fun y => comparefn x y =? 0)%Z l1
       = filter (fun y => comparefn x y =? 0)%Z l2) ->
    l1 = l2.
Proof.
  induction l1 as [| x l1 IH]; intros l2 HP Hperm Hs1 Hs2 Hties.
  - apply Permutation_nil in Hperm. now subst.
  - destruct l2 as [| y l2].
    { apply Permutation_sym, Permutation_nil in Hperm. discriminate. }
    inversion HP as [| ? ? Hx HPl]; subst.
    inversion Hs1 as [| ? ? Hs1' Hx1]; subst.
    inversion Hs2 as [| ? ? Hs2' Hy2]; subst.
    assert (Hy : P y).
    { rewrite Forall_forall in HP. apply HP.
      apply (Permutation_in y (Permutation_sym Hperm)). now left. }
    assert (Hxy : x = y).
    { assert (Hin1 : In y (x :: l1)).
      { apply (Permutation_in y (Permutation_sym Hperm)). now left. }
      assert (Hin2 : In x (y :: l2)).
      { apply (Permutation_in x Hperm). now left. }
      destruct Hin1 as [E | Hin1]; [exact E |].
      destruct Hin2 as [E | Hin2]; [now symmetry |].
      rewrite Forall_forall in Hx1, Hy2.
      pose proof (Hx1 y Hin1) as Hle1. pose proof (Hy2 x Hin2) as Hle2.
      unfold in_order in Hle1, Hle2.
      assert (Htie : comparefn x y = 0%Z).
      { pose proof (comparefn_flip y x Hy Hx). lia. }
      pose proof (Hties x Hx) as Hf. simpl in Hf.
      rewrite (comparefn_tie_refl x Hx), Htie in Hf. simpl in Hf.
      now injection Hf. }
    subst y. f_equal. apply IH; try assumption.
    + now apply Permutation_cons_inv in Hperm.
    + intros z Hz. pose proof (Hties z Hz) as Hf. simpl in Hf.
      destruct (comparefn z x =? 0)%Z; [now injection Hf | exact Hf].
Qed.

End SortFacts.

Section SliceFacts.
Import Table.

Variable A : Type.

(** A page that starts at or after index 0. *)
Lemma slice_page (l : list A) (start size : Z) :
  (0 <= start)%Z -> (0 <= size)%Z ->
  slice l start (start + size)
  = firstn (Z.to_nat size) (skipn (Z.to_nat start) l).
Proof.
  intros Hstart Hsize. unfold slice.
  assert (Hs : (start <? 0)%Z = false) by (apply Z.ltb_ge; lia).
  assert (He : (start + size <? 0)%Z = false) by (apply Z.ltb_ge; lia).
  rewrite Hs, He.
  destruct (Z_lt_le_dec start (Z.of_nat (length l))) as [Hin | Hout].
  - rewrite (Z.min_l start) by lia.
    destruct (Z_le_gt_dec (start + size) (Z.of_nat (length l))) as [Hfit | Hover].
    + rewrite Z.min_l by lia. f_equal. f_equal. lia.
    + rewrite Z.min_r by lia.
      rewrite !firstn_all2; try reflexivity; rewrite length_skipn; lia.
  - rewrite (Z.min_r start) by lia. rewrite Z.min_r by lia.
    rewrite Z.sub_diag. simpl.
    rewrite (skipn_all2 (n := Z.to_nat start)) by lia.
    now rewrite firstn_nil.
Qed.

Lemma nth_error_page (l : list A) (start size : Z) (j : nat) :
  (0 <= start)%Z -> (0 <= size)%Z ->
  nth_error (slice l start (start + size)) j
  = if (Z.of_nat j <? size)%Z then nth_error l (Z.to_nat start + j) else None.
Proof.
  intros Hstart Hsize. rewrite slice_page by assumption.
  rewrite nth_error_firstn, nth_error_skipn.
  destruct (Z.of_nat j <? size)%Z eqn:Hj.
  - apply Z.ltb_lt in Hj.
    assert (H : (j <? Z.to_nat size) = true) by (apply Nat.ltb_lt; lia).
    now rewrite H.
  - apply Z.ltb_ge in Hj.
    assert (H : (j <? Z.to_nat size) = false) by (apply Nat.ltb_ge; lia).
    now rewrite H.
Qed.

End SliceFacts.

(** [ceil_div total pageSize] is the least number of pages of [pageSize]
    entries that hold [total] entries. *)
Lemma ceil_div_spec (total pageSize : Z) :
  (0 < pageSize)%Z ->
  ((Table.ceil_div total pageSize - 1) * pageSize < total
   <= Table.ceil_div total pageSize * pageSize)%Z.
Proof.
  intros Hps. unfold Table.ceil_div.
  pose proof (Z.mul_div_le (- total) pageSize Hps) as Hle.
  pose proof (Z.mul_succ_div_gt (- total) pageSize Hps) as Hgt.
  nia.
Qed.

Section PipelineFacts.
Import Js Table.

Variables T V : Type.
Variable get : T -> jsstring -> V.
Variable String_ : V -> jsstring.
Variable js_lt : V -> V -> bool.
Variable columns : list (TableColumn T V).

Lemma filter_all (l : list T) : filter (fun _ => true) l = l.
Proof. induction l as [| a l IH]; simpl; [reflexivity | now rewrite IH]. Qed.

Lemma filter_twice (f g : T -> bool) (l : list T) :
  filter f (filter g l) = filter (fun x => g x && f x) l.
Proof.
  induction l as [| a l IH]; simpl; [reflexivity |].
  destruct (g a); simpl; [destruct (f a) |]; now rewrite IH.
Qed.

(** The filter step keeps, in their order, the records that pass. *)
Lemma applyFilters_filter (internalFilters : FilterConfig) :
  forall dataSource,
    applyFilters get String_ columns internalFilters dataSource
    = filter (passes get String_ columns internalFilters) dataSource.
Proof.
  unfold applyFilters.
  induction internalFilters as [| [k fv] rest IH]; intros dataSource.
  - simpl. symmetry. apply filter_all.
  - simpl fold_left. rewrite IH.
    destruct (truthy fv) eqn:Hfv; simpl negb; cbv iota.
    + rewrite filter_twice. apply filter_ext. intros r.
      unfold passes. simpl. now rewrite Hfv.
    + apply filter_ext. intros r. unfold passes. simpl. now rewrite Hfv.
Qed.

(** The column that [columns.find(col => col.key === k)] gives is the
    first one with that key. *)
Lemma find_column_first (k : jsstring) (column : TableColumn T V) :
  find_column columns k = Some column
  <-> exists before after,
        columns = before ++ column :: after
        /\ key column = k
        /\ forall c, In c before -> key c <> k.
Proof.
  unfold find_column, jsstring_eqb.
  induction columns as [| col cols IH]; simpl.
  - split; [discriminate |]. intros [before [after [H _]]].
    now destruct before.
  - destruct (list_eq_dec ascii_dec (key col) k) as [E | N].
    + split.
      * intros H. injection H as <-. exists [], cols.
        split; [reflexivity |]. split; [exact E |]. intros c [].
      * intros [before [after [Hcols [Hk Hbefore]]]].
        destruct before as [| c before]; simpl in Hcols.
        -- now injection Hcols as <- _.
        -- injection Hcols as <- _. exfalso.
           apply (Hbefore col); [now left | exact E].
    + rewrite IH. split.
      * intros [before [after [Hcols [Hk Hbefore]]]].
        exists (col :: before), after. split; [now rewrite Hcols |].
        split; [exact Hk |]. intros c [<- | Hc]; [exact N | now apply Hbefore].
      * intros [before [after [Hcols [Hk Hbefore]]]].
        destruct before as [| c before]; simpl in Hcols.
        -- injection Hcols as -> _. contradiction.
        -- injection Hcols as <- Hcols. exists before, after.
           split; [exact Hcols |]. split; [exact Hk |].
           intros c Hc. apply Hbefore. now right.
Qed.

Lemma find_column_none (k : jsstring) :
  find_column columns k = None <-> forall c, In c columns -> key c <> k.
Proof.
  unfold find_column, jsstring_eqb. split.
  - intros H c Hc E. pose proof (find_none _ _ H c Hc) as Hnone.
    simpl in Hnone. now destruct (list_eq_dec ascii_dec (key c) k).
  - intros H. induction columns as [| col cols IH]; [reflexivity |]. simpl.
    destruct (list_eq_dec ascii_dec (key col) k) as [E | N].
    + exfalso. apply (H col); [now left | exact E].
    + apply IH. intros c Hc. apply H. now right.
Qed.

(** Passing, spelled out: for every entry with a non-empty filter text
    whose key names a column, the record's derived value of the first
    such column contains the filter text, both in lower case. *)
Lemma passes_first_column (internalFilters : FilterConfig) (record : T) :
  passes get String_ columns internalFilters record = true
  <-> forall k filterValue before column after,
        In (k, filterValue) internalFilters ->
        filterValue <> [] ->
        columns = before ++ column :: after ->
        key column = k ->
        (forall c, In c before -> key c <> k) ->
        includes (toLowerCase (String_ (derived get column k record)))
                 (toLowerCase filterValue) = true.
Proof.
  unfold passes. rewrite forallb_forall. split.
  - intros Hpass k fv before column after Hentry Hfv Hcols Hk Hbefore.
    specialize (Hpass (k, fv) Hentry). simpl in Hpass.
    destruct fv as [| ch fv]; [contradiction |]. simpl in Hpass.
    unfold matches in Hpass.
    assert (Hcol : find_column columns k = Some column).
    { apply find_column_first. now exists before, after. }
    now rewrite Hcol in Hpass.
  - intros Hpass [k fv] Hentry. simpl.
    destruct fv as [| ch fv]; [reflexivity |]. simpl.
    unfold matches.
    destruct (find_column columns k) as [column |] eqn:Hcol; [| reflexivity].
    apply find_column_first in Hcol.
    destruct Hcol as [before [after [Hcols [Hk Hbefore]]]].
    now apply (Hpass k (ch :: fv) before column after).
Qed.

Lemma applyFilters_incl (internalFilters : FilterConfig) (dataSource : list T) :
  Forall (fun record => In record dataSource)
         (applyFilters get String_ columns internalFilters dataSource).
Proof.
  rewrite applyFilters_filter. apply Forall_forall. intros record Hin.
  apply filter_In in Hin. now destruct Hin.
Qed.

(** The three outcomes of the comparator. *)
Lemma comparator_cases (column : TableColumn T V) (k : jsstring)
    (dir : direction) (a b : T) :
  let aValue := derived get column k a in
  let bValue := derived get column k b in
  (js_lt aValue bValue = true ->
   comparator get js_lt column k dir a b
   = match dir with asc => (-1)%Z | desc => 1%Z end)
  /\ (js_lt aValue bValue = false -> js_lt bValue aValue = true ->
      comparator get js_lt column k dir a b
      = match dir with asc => 1%Z | desc => (-1)%Z end)
  /\ (js_lt aValue bValue = false -> js_lt bValue aValue = false ->
      comparator get js_lt column k dir a b = 0%Z).
Proof.
  cbv zeta. unfold comparator.
  repeat split; intros H; try intros H';
    rewrite H; try rewrite H'; reflexivity.
Qed.

(** When [<] is a strict weak order on the sorted cells, the comparator
    is consistent on the records. *)
Lemma comparator_flip (column : TableColumn T V) (k : jsstring)
    (dir : direction) (dataSource : list T) :
  (forall a b, In a dataSource -> In b dataSource ->
     js_lt (derived get column k a) (derived get column k b) = true ->
     js_lt (derived get column k b) (derived get column k a) = false) ->
  forall a b, In a dataSource -> In b dataSource ->
    (0 < comparator get js_lt column k dir a b)%Z
    <-> (comparator get js_lt column k dir b a < 0)%Z.
Proof.
  intros Hasym a b Ha Hb. unfold comparator.
  pose proof (Hasym a b Ha Hb) as Hab. pose proof (Hasym b a Hb Ha) as Hba.
  destruct (js_lt (derived get column k a) (derived get column k b));
    destruct (js_lt (derived get column k b) (derived get column k a));
    destruct dir; try lia.
  all: specialize (Hab eq_refl); discriminate.
Qed.

Lemma comparator_in_order (column : TableColumn T V) (k : jsstring)
    (dir : direction) (dataSource : list T) :
  (forall a b, In a dataSource -> In b dataSource ->
     js_lt (derived get column k a) (derived get column k b) = true ->
     js_lt (derived get column k b) (derived get column k a) = false) ->
  forall a b, In a dataSource -> In b dataSource ->
    in_order (comparator get js_lt column k dir) a b
    <-> match dir with
        | asc => js_lt (derived get column k b) (derived get column k a)
        | desc => js_lt (derived get column k a) (derived get column k b)
        end = false.
Proof.
  intros Hasym a b Ha Hb. unfold in_order, comparator.
  pose proof (Hasym a b Ha Hb) as Hab.
  destruct (js_lt (derived get column k a) (derived get column k b));
    destruct (js_lt (derived get column k b) (derived get column k a));
    destruct dir; split; intros H; try reflexivity; try lia;
    try discriminate H.
  all: specialize (Hab eq_refl); discriminate.
Qed.

Lemma comparator_trans (column : TableColumn T V) (k : jsstring)
    (dir : direction) (dataSource : list T) :
  (forall a b, In a dataSource -> In b dataSource ->
     js_lt (derived get column k a) (derived get column k b) = true ->
     js_lt (derived get column k b) (derived get column k a) = false) ->
  (forall a b d, In a dataSource -> In b dataSource -> In d dataSource ->
     js_lt (derived get column k a) (derived get column k d) = true ->
     js_lt (derived get column k a) (derived get column k b) = true
     \/ js_lt (derived get column k b) (derived get column k d) = true) ->
  forall a b d, In a dataSource -> In b dataSource -> In d dataSource ->
    in_order (comparator get js_lt column k dir) a b ->
    in_order (comparator get js_lt column k dir) b d ->
    in_order (comparator get js_lt column k dir) a d.
Proof.
  intros Hasym Hneg a b d Ha Hb Hd.
  rewrite !(comparator_in_order column k dir dataSource Hasym) by assumption.
  destruct dir; intros Hab Hbd.
  - destruct (js_lt (derived get column k d) (derived get column k a)) eqn:E;
      [| reflexivity].
    destruct (Hneg d b a Hd Hb Ha E) as [H | H]; congruence.
  - destruct (js_lt (derived get column k a) (derived get column k d)) eqn:E;
      [| reflexivity].
    destruct (Hneg a b d Ha Hb Hd E) as [H | H]; congruence.
Qed.

Lemma StronglySorted_on (R R' : T -> T -> Prop) (Q : T -> Prop) (l : list T) :
  (forall a b, Q a -> Q b -> R a b -> R' a b) ->
  Forall Q l -> StronglySorted R l -> StronglySorted R' l.
Proof.
  intros Himp. induction l as [| a l IH]; intros HQ Hs; [constructor |].
  inversion HQ as [| ? ? Ha HQl]; subst.
  inversion Hs as [| ? ? Hsl Hal]; subst.
  constructor; [now apply IH |].
  rewrite Forall_forall in *. intros b Hb.
  apply Himp; [exact Ha | now apply HQl | now apply Hal].
Qed.

(** Claim C4: the rendered rows are obtained by filtering, then sorting,
    then slicing.
    The derived value of a record for a column is the result of the
    column's data-index function, or the field its data index names, or
    else the field the column key names.
    (1) The filter keeps, in their order, the records that pass; a record
    passes when, for every entry with a non-empty filter text whose key
    names a column, the lower-case string form of its derived value for
    the first such column contains the lower-case filter text.
    (2) The sorted list is a permutation of the filtered one; it is the
    filtered list itself without a sort configuration or when the sort
    key names no column.  Otherwise the first column with the sort key
    is sorted by, with the two-way comparator ([<] gives -1 ascending and
    +1 descending, [>] the opposite, otherwise 0).  When [<] is a strict
    weak order on the sorted cells of the data source (the comparator is
    then consistent), every record stands before the records it precedes
    in the configured direction, records that [<] does not separate keep
    the order they have in the filtered list, and the sorted list is the
    only permutation of the filtered list with these two properties.
    (3) With pagination the result is sliced from [(current-1)*pageSize]
    to [current*pageSize]: for a page number from 1 on, row [j] of the
    page is record [(current-1)*pageSize + j] of the processed list for
    [j < pageSize], and there is no further row.  The page count is the
    ceiling of [total / pageSize]. *)
Theorem table_pipeline (dataSource : list T) (internalFilters : FilterConfig)
    (internalSortConfig : option SortConfig) (pg : Pagination) :
  let filtered := applyFilters get String_ columns internalFilters dataSource in
  let processed :=
    processedData get String_ js_lt columns dataSource internalFilters
      internalSortConfig in
  let shown :=
    rows get String_ js_lt columns dataSource internalFilters
      internalSortConfig (Some pg) in
  (forall column fallback record,
     (forall f, dataIndex column = Some (inr f) ->
        derived get column fallback record = f record)
     /\ (forall name, dataIndex column = Some (inl name) -> name <> [] ->
           derived get column fallback record = get record name)
     /\ (dataIndex column = None \/ dataIndex column = Some (inl []) ->
         derived get column fallback record = get record fallback))
  /\ filtered = filter (passes get String_ columns internalFilters) dataSource
  /\ (forall record,
        passes get String_ columns internalFilters record = true
        <-> forall k filterValue before column after,
              In (k, filterValue) internalFilters ->
              filterValue <> [] ->
              columns = before ++ column :: after ->
              key column = k ->
              (forall c, In c before -> key c <> k) ->
              includes (toLowerCase (String_ (derived get column k record)))
                       (toLowerCase filterValue) = true)
  /\ Permutation processed filtered
  /\ (internalSortConfig = None -> processed = filtered)
  /\ (forall cfg,
        internalSortConfig = Some cfg ->
        (forall c, In c columns -> key c <> sort_key cfg) ->
        processed = filtered)
  /\ (forall cfg before column after,
        internalSortConfig = Some cfg ->
        columns = before ++ column :: after ->
        key column = sort_key cfg ->
        (forall c, In c before -> key c <> sort_key cfg) ->
        let k := sort_key cfg in
        let dir := sort_direction cfg in
        let cell := derived get column k in
        let comparefn := comparator get js_lt column k dir in
        (forall a b,
           (js_lt (cell a) (cell b) = true ->
            comparefn a b = match dir with asc => (-1)%Z | desc => 1%Z end)
           /\ (js_lt (cell a) (cell b) = false ->
               js_lt (cell b) (cell a) = true ->
               comparefn a b = match dir with asc => 1%Z | desc => (-1)%Z end)
           /\ (js_lt (cell a) (cell b) = false ->
               js_lt (cell b) (cell a) = false ->
               comparefn a b = 0%Z))
        /\ ((forall a b, In a dataSource -> In b dataSource ->
               js_lt (cell a) (cell b) = true ->
               js_lt (cell b) (cell a) = false) ->
            (forall a b d,
               In a dataSource -> In b dataSource -> In d dataSource ->
               js_lt (cell a) (cell d) = true ->
               js_lt (cell a) (cell b) = true
               \/ js_lt (cell b) (cell d) = true) ->
            StronglySorted (in_order comparefn) processed
            /\ StronglySorted
                 (fun a b =>
                    match dir with
                    | asc => js_lt (cell b) (cell a)
                    | desc => js_lt (cell a) (cell b)
                    end = false)
                 processed
            /\ (forall x, In x dataSource ->
                  filter (fun y => comparefn x y =? 0)%Z processed
                  = filter (fun y => comparefn x y =? 0)%Z filtered)
            /\ (forall l,
                  Permutation l filtered ->
                  StronglySorted (in_order comparefn) l ->
                  (forall x, In x dataSource ->
                     filter (fun y => comparefn x y =? 0)%Z l
                     = filter (fun y => comparefn x y =? 0)%Z filtered) ->
                  l = processed)))
  /\ shown = slice processed ((current pg - 1) * pageSize pg)
                   (current pg * pageSize pg)
  /\ ((1 <= current pg)%Z -> (0 <= pageSize pg)%Z ->
      forall j,
        nth_error shown j
        = if (Z.of_nat j <? pageSize pg)%Z
          then nth_error processed
                 (Z.to_nat ((current pg - 1) * pageSize pg) + j)
          else None)
  /\ rows get String_ js_lt columns dataSource internalFilters
       internalSortConfig None = processed
  /\ ((0 < pageSize pg)%Z ->
      ((pageCount pg - 1) * pageSize pg < total pg
       <= pageCount pg * pageSize pg)%Z).
Proof.
  cbv zeta. unfold rows, processedData, paginatedData.
  split.
  { intros column fallback record. unfold derived. repeat split.
    - intros f Hf. now rewrite Hf.
    - intros name Hname Hne. rewrite Hname.
      destruct name; [contradiction | reflexivity].
    - intros [Hnone | Hempty]; [now rewrite Hnone | now rewrite Hempty]. }
  split; [apply applyFilters_filter |].
  split; [intros record; apply passes_first_column |].
  split.
  { unfold applySort. destruct internalSortConfig as [cfg |];
      [| apply Permutation_refl].
    destruct (find_column columns (sort_key cfg));
      [apply sort_permutation | apply Permutation_refl]. }
  split; [intros Hnone; now rewrite Hnone |].
  split.
  { intros cfg Hcfg Hnone. unfold applySort. rewrite Hcfg.
    apply find_column_none in Hnone. now rewrite Hnone. }
  split.
  { intros cfg before column after Hcfg Hcols Hkey Hbefore.
    assert (Hcol : find_column columns (sort_key cfg) = Some column).
    { apply find_column_first. now exists before, after. }
    unfold applySort. rewrite Hcfg, Hcol.
    split; [intros a b; apply comparator_cases |].
    intros Hasym Hneg.
    pose proof (comparator_flip column (sort_key cfg) (sort_direction cfg)
                  dataSource Hasym) as Hflip.
    pose proof (comparator_trans column (sort_key cfg) (sort_direction cfg)
                  dataSource Hasym Hneg) as Htrans.
    pose proof (applyFilters_incl internalFilters dataSource) as Hincl.
    pose proof (sort_strongly_sorted T _ (fun r => In r dataSource)
                  Hflip Htrans _ Hincl) as Hsorted.
    split; [exact Hsorted |].
    split.
    { apply (StronglySorted_on
               (in_order (comparator get js_lt column (sort_key cfg)
                            (sort_direction cfg)))
               _ (fun r => In r dataSource)); [| | exact Hsorted].
      - intros a b Ha Hb.
        now apply (comparator_in_order column (sort_key cfg)
                     (sort_direction cfg) dataSource Hasym).
      - apply (Permutation_Forall
                 (Permutation_sym (sort_permutation T _ _)) Hincl). }
    split.
    { intros x Hx.
      now apply (sort_stable T _ (fun r => In r dataSource) Hflip Htrans). }
    intros l Hperm Hl Hties.
    apply (stable_sorted_unique T _ (fun r => In r dataSource) Hflip).
    - apply (Permutation_Forall (Permutation_sym Hperm) Hincl).
    - apply (perm_trans Hperm), Permutation_sym, sort_permutation.
    - exact Hl.
    - exact Hsorted.
    - intros x Hx. rewrite (Hties x Hx). symmetry.
      now apply (sort_stable T _ (fun r => In r dataSource) Hflip Htrans). }
  split.
  { f_equal. lia. }
  split.
  { intros Hcurrent Hsize j. apply nth_error_page; nia. }
  split; [reflexivity |].
  apply ceil_div_spec.
Qed.

End PipelineFacts.

(** The pagination scenario: 25 records, ten to a page. *)
Section TableSamples.
Import Js Table Samples.

Example page_one :
  sample_rows [] None (Some (sample_page 1)) = [1; 2; 3; 4; 5; 6; 7; 8; 9; 10]%Z.
Proof. reflexivity. Qed.

Example page_two :
  sample_rows [] None (Some (sample_page 2))
  = [11; 12; 13; 14; 15; 16; 17; 18; 19; 20]%Z.
Proof. reflexivity. Qed.

Example page_three :
  sample_rows [] None (Some (sample_page 3)) = [21; 22; 23; 24; 25]%Z.
Proof. reflexivity. Qed.

Example page_count_three : pageCount (sample_page 1) = 3%Z.
Proof. reflexivity. Qed.

Example filtered_sorted_page :
  sample_rows [(str "id", str "Hi"); (str "other", str "x"); (str "id", [])]
    (Some {| sort_key := str "id"; sort_direction := desc |})
    (Some (sample_page 2))
  = [15; 14; 13; 12; 11; 10]%Z.
Proof. reflexivity. Qed.

Lemma table_pipeline_witness :
  ~ In 9%Z MoreSamples.high_ids_descending
  /\ StronglySorted (fun a b => (a <? b)%Z = false)
       MoreSamples.high_ids_descending
  /\ nth_error
       (sample_rows [(str "id", str "Hi")]
          (Some {| sort_key := str "id"; sort_direction := desc |})
          (Some (sample_page 2))) 5
     = nth_error MoreSamples.high_ids_descending 15
  /\ ((pageCount (sample_page 2) - 1) * 10 < 25
      <= pageCount (sample_page 2) * 10)%Z.
Proof.
  unfold MoreSamples.high_ids_descending.
  pose proof (table_pipeline Z Z sample_get sample_String Z.ltb sample_columns
                sample_data [(str "id", str "Hi")]
                (Some {| sort_key := str "id"; sort_direction := desc |})
                (sample_page 2)) as H.
  cbv zeta in H.
  destruct H
    as [_ [Hfilter [Hpass [Hperm [_ [_ [Hsort [_ [Hrow [_ Hcount]]]]]]]]]].
  split; [| split; [| split]].
  - intros Hin. apply (Permutation_in _ Hperm) in Hin.
    rewrite Hfilter in Hin. apply filter_In in Hin. destruct Hin as [_ Hp].
    apply Hpass
      with (k := str "id") (filterValue := str "Hi") (before := [])
           (after := [])
           (column := {| key := str "id"; title := str "Id";
                         dataIndex := None;
                         sortable := true; filterable := true |}) in Hp.
    + vm_compute in Hp. discriminate Hp.
    + now left.
    + discriminate.
    + reflexivity.
    + reflexivity.
    + intros c [].
  - destruct (Hsort {| sort_key := str "id"; sort_direction := desc |}
                [] {| key := str "id"; title := str "Id";
                      dataIndex := None;
                      sortable := true; filterable := true |} []
                eq_refl eq_refl eq_refl (fun c (Hc : In c []) => match Hc with end))
      as [_ Hconsistent].
    destruct Hconsistent as [_ [Hordered _]].
    + intros a b _ _. unfold derived, sample_get. simpl.
      intros Hab. apply Z.ltb_lt in Hab. apply Z.ltb_ge. lia.
    + intros a b d _ _ _. unfold derived, sample_get. simpl.
      intros Had. apply Z.ltb_lt in Had.
      destruct (Z_lt_le_dec a b) as [Hlt | Hge];
        [left | right]; apply Z.ltb_lt; lia.
    + exact Hordered.
  - apply (Hrow ltac:(simpl; lia) ltac:(simpl; lia) 5).
  - apply Hcount. simpl. lia.
Defined.

End TableSamples.

(* ================================================================= *)
(** * Part III. Further properties of the code *)
(* ================================================================= *)

(** ** Masking, for every digit mask *)

Section MaskMore.
Import Js Mask.

Lemma stripNonDigits_digits (raw : jsstring) :
  forallb is_digit (stripNonDigits raw) = true.
Proof.
  unfold stripNonDigits. apply forallb_forall. intros c Hc.
  apply filter_In in Hc. now destruct Hc.
Qed.

Lemma firstn_digits (n : nat) (s : jsstring) :
  forallb is_digit s = true -> forallb is_digit (firstn n s) = true.
Proof.
  rewrite !forallb_forall. intros H c Hc. apply H.
  rewrite <- (firstn_skipn n s). apply in_or_app. now left.
Qed.

(** The digits of the loop's result: those of the accumulator, then as
    many input digits as the rest of the mask has slots. *)
Lemma stripNonDigits_applyMask_loop (mask : jsstring) :
  digit_mask mask = true ->
  forall acc value,
    forallb is_digit value = true ->
    stripNonDigits (applyMask_loop acc value mask)
    = stripNonDigits acc ++ firstn (slots mask) value.
Proof.
  unfold stripNonDigits.
  induction mask as [| c mask IH]; intros Hmask acc value Hdig.
  - simpl. now rewrite app_nil_r.
  - simpl in Hmask. apply andb_true_iff in Hmask. destruct Hmask as [Hc Hmask].
    destruct value as [| d value].
    + simpl. rewrite firstn_nil. now rewrite app_nil_r.
    + simpl in Hdig. apply andb_true_iff in Hdig. destruct Hdig as [Hd Hrest].
      unfold slots. simpl. unfold digit_slot at 1.
      unfold digit_mask_char, digit_slot, is_placeholder in Hc.
      destruct (Ascii.eqb c "9") eqn:H9.
      * simpl. rewrite Hd. fold (slots mask).
        rewrite (IH Hmask) by assumption.
        rewrite filter_app. simpl. rewrite Hd. now rewrite <- app_assoc.
      * destruct (Ascii.eqb c "A") eqn:HA.
        { apply Ascii.eqb_eq in HA. subst c. vm_compute in Hc. discriminate Hc. }
        destruct (Ascii.eqb c "*") eqn:Hstar.
        -- simpl. fold (slots mask). rewrite (IH Hmask) by assumption.
           rewrite filter_app. simpl. rewrite Hd. now rewrite <- app_assoc.
        -- simpl. fold (slots mask).
           rewrite (IH Hmask) by (simpl; now rewrite Hd, Hrest).
           rewrite filter_app. simpl.
           simpl in Hc.
           apply negb_true_iff in Hc. rewrite Hc. now rewrite app_nil_r.
Qed.

(** The value handed to [onChange] under a digit mask is the typed
    digits, cut to the number of slots of the mask; the displayed value
    holds the same digits. *)
Theorem handleChange_reports_digit_prefix (mask raw : jsstring)
    (Hmask : digit_mask mask = true) (Hset : truthy mask = true) :
  reported (handleChange (Some mask) raw)
  = firstn (slots mask) (stripNonDigits raw)
  /\ stripNonDigits (displayed (handleChange (Some mask) raw))
     = firstn (slots mask) (stripNonDigits raw)
  /\ forallb is_digit (reported (handleChange (Some mask) raw)) = true.
Proof.
  unfold handleChange. rewrite Hset. simpl. unfold applyMask.
  assert (Hrep : removeMask (applyMask_loop [] (stripNonDigits raw) mask) mask
                 = firstn (slots mask) (stripNonDigits raw)).
  { rewrite (removeMask_applyMask_loop mask Hmask mask [] (stripNonDigits raw)
               (incl_refl mask) (stripNonDigits_digits raw)).
    reflexivity. }
  split; [exact Hrep |]. split.
  - now rewrite (stripNonDigits_applyMask_loop mask Hmask []
                   (stripNonDigits raw) (stripNonDigits_digits raw)).
  - rewrite Hrep. apply firstn_digits. apply stripNonDigits_digits.
Qed.

Lemma handleChange_reports_digit_prefix_witness :
  reported (handleChange (Some (str "99/99/9999")) (str "3a1.12-2024 777"))
  = firstn (slots (str "99/99/9999")) (stripNonDigits (str "3a1.12-2024 777")).
Proof.
  apply (handleChange_reports_digit_prefix (str "99/99/9999")
           (str "3a1.12-2024 777")); reflexivity.
Defined.

Lemma applyMask_loop_length (mask : jsstring) :
  forall acc value,
    length (applyMask_loop acc value mask) <= length acc + length mask.
Proof.
  induction mask as [| c mask IH]; intros acc value; simpl; [lia |].
  destruct value as [| d value]; [lia |].
  destruct (Ascii.eqb c "9").
  { destruct (is_digit d); [| lia].
    specialize (IH (acc ++ [d]) value). rewrite length_app in IH. simpl in IH. lia. }
  destruct (Ascii.eqb c "A").
  { destruct (is_letter d); [| lia].
    specialize (IH (acc ++ [toUpperCase d]) value).
    rewrite length_app in IH. simpl in IH. lia. }
  destruct (Ascii.eqb c "*").
  { specialize (IH (acc ++ [d]) value). rewrite length_app in IH. simpl in IH. lia. }
  specialize (IH (acc ++ [c]) (d :: value)).
  rewrite length_app in IH. simpl in IH. lia.
Qed.

(** Whatever is typed, the masked value is never longer than the mask,
    and the unmasked value is never longer than the masked one. *)
Theorem applyMask_length_bounded (value mask : jsstring) :
  length (applyMask value mask) <= length mask
  /\ length (removeMask (applyMask value mask) mask)
     <= length (applyMask value mask).
Proof.
  split.
  - unfold applyMask. apply (applyMask_loop_length mask [] value).
  - unfold removeMask. apply filter_length_le.
Qed.

(** No literal character of the mask survives in the reported value,
    also when the user typed that character: under a mask with a digit
    literal, such as the 1 of "+1 (999) 999-9999", every typed 1 is lost. *)
Theorem removeMask_drops_every_literal (mask raw : jsstring) (c : ascii)
    (Hin : In c mask) (Hliteral : is_placeholder c = false) :
  ~ In c (removeMask raw mask)
  /\ (truthy mask = true -> ~ In c (reported (handleChange (Some mask) raw))).
Proof.
  assert (H : forall value, ~ In c (removeMask value mask)).
  { intros value Hc. unfold removeMask in Hc. apply filter_In in Hc.
    destruct Hc as [_ Hc]. apply negb_true_iff in Hc.
    assert (Hhas : has (maskChars mask) c = true).
    { apply has_true_iff. unfold maskChars. apply filter_In.
      split; [assumption | now rewrite Hliteral]. }
    rewrite Hhas in Hc. discriminate. }
  split; [apply H |]. intros Hset. unfold handleChange. rewrite Hset. apply H.
Qed.

Lemma removeMask_drops_every_literal_witness :
  ~ In "1"%char
      (reported (handleChange (Some (str "+1 (999) 999-9999")) (str "2125551212"))).
Proof.
  apply (removeMask_drops_every_literal (str "+1 (999) 999-9999")
           (str "2125551212") "1"%char); [| reflexivity | reflexivity].
  simpl. right. now left.
Defined.

(** Feeding the displayed value back through the change handler shows
    the same value again, as long as the typed digits fit the mask. *)
Theorem handleChange_display_stable (mask raw : jsstring)
    (Hmask : digit_mask mask = true) (Hset : truthy mask = true)
    (Hfits : length (stripNonDigits raw) <= slots mask) :
  displayed (handleChange (Some mask)
               (displayed (handleChange (Some mask) raw)))
  = displayed (handleChange (Some mask) raw).
Proof.
  unfold handleChange. rewrite Hset. simpl. unfold applyMask at 2.
  rewrite (stripNonDigits_applyMask_loop mask Hmask []
             (stripNonDigits raw) (stripNonDigits_digits raw)).
  simpl. rewrite firstn_all2 by exact Hfits. reflexivity.
Qed.

Lemma handleChange_display_stable_witness :
  displayed (handleChange (Some phoneMask)
               (displayed (handleChange (Some phoneMask) (str "12345"))))
  = displayed (handleChange (Some phoneMask) (str "12345")).
Proof.
  apply (handleChange_display_stable phoneMask (str "12345"));
    [reflexivity | reflexivity | vm_compute; lia].
Defined.

End MaskMore.

(** ** The inline validators *)

Section ValidatorMore.
Import Js.

Lemma trimStart_nil_iff (s : jsstring) :
  trimStart s = [] <-> forallb is_space s = true.
Proof.
  induction s as [| c s IH]; simpl; [tauto |].
  destruct (is_space c); simpl; [exact IH |].
  split; discriminate.
Qed.

Lemma trimStart_all_space (s : jsstring) :
  forallb is_space (trimStart s) = forallb is_space s.
Proof.
  induction s as [| c s IH]; simpl; [reflexivity |].
  destruct (is_space c) eqn:Hc; simpl; [exact IH |].
  now rewrite Hc.
Qed.

Lemma trim_nil_iff (s : jsstring) : trim s = [] <-> forallb is_space s = true.
Proof.
  unfold trim, trimEnd.
  rewrite <- (trimStart_all_space s), <- (forallb_rev is_space (trimStart s)).
  rewrite <- trimStart_nil_iff.
  split; intros H.
  - apply (f_equal (@rev ascii)) in H. rewrite rev_involutive in H. exact H.
  - now rewrite H.
Qed.

(** A [required] rule fails exactly on a value that is empty or consists
    of white space only, in the inline validator and in the hook alike. *)
Theorem required_fails_on_blank (value : jsstring) :
  InputValidation.VALIDATORS_required value = negb (forallb is_space value)
  /\ Hook.VALIDATORS_required (Hook.VStr value) = negb (forallb is_space value).
Proof.
  assert (H : (0 <? length (trim value)) = negb (forallb is_space value)).
  { destruct (forallb is_space value) eqn:Hb.
    - apply trim_nil_iff in Hb. now rewrite Hb.
    - destruct (trim value) eqn:Ht; [| reflexivity].
      apply trim_nil_iff in Ht. rewrite Ht in Hb. discriminate. }
  split; exact H.
Qed.

Lemma nth_error_filter_head {A : Type} (f : A -> bool) (l : list A) :
  nth_error (filter f l) 0 = find f l.
Proof.
  induction l as [| a l IH]; simpl; [reflexivity |].
  now destruct (f a).
Qed.

Section Input.
Variables email phone url : jsstring -> bool.

Lemma input_fold_collects (inputValue : jsstring)
    (rules : list InputValidation.ValidationRule) :
  forall errors,
    fold_left (InputValidation.validate_step email phone url inputValue)
      rules errors
    = errors ++ map InputValidation.message (filter (fun rule => negb (InputValidation.ruleIsValid email phone url
                                         rule inputValue)) rules).
Proof.
  induction rules as [| rule rules IH]; intros errors; simpl.
  - now rewrite app_nil_r.
  - rewrite IH. unfold InputValidation.validate_step at 1.
    destruct (InputValidation.ruleIsValid email phone url rule inputValue);
      simpl; [reflexivity |].
    now rewrite <- app_assoc.
Qed.

Lemma validateInput_as_filter (p : InputValidation.props)
    (inputValue : jsstring) :
  InputValidation.validateInput email phone url p inputValue
  = map InputValidation.message
      (filter (fun rule => negb (InputValidation.ruleIsValid email phone url
                                   rule inputValue))
              (InputValidation.validation p)).
Proof.
  unfold InputValidation.validateInput, InputValidation.hasEnhancedFeatures.
  destruct (InputValidation.validation p) as [| rule rules] eqn:Hv.
  - simpl. now destruct (negb _ || true).
  - simpl length. simpl.
    apply (input_fold_collects inputValue (rule :: rules) []).
Qed.

(** The error list of the input holds the messages of exactly the failing
    rules, in declaration order, in both variants of the component; so
    without an [error] prop the message shown is that of the first
    failing rule. *)
Theorem validateInput_lists_failing_rules (p : InputValidation.props)
    (fp : Feedback.feedback_props) (inputValue : jsstring) :
  let errors :=
    map InputValidation.message
        (filter (fun rule => negb (InputValidation.ruleIsValid email phone url
                                     rule inputValue))
                (InputValidation.validation p)) in
  InputValidation.validateInput email phone url p inputValue = errors
  /\ InputValidation.validateInput_enhanced email phone url
       (InputValidation.validation p) inputValue = errors
  /\ (truthy_opt (Feedback.error fp) = false ->
      Feedback.currentError fp
        (InputValidation.validateInput email phone url p inputValue)
      = option_map InputValidation.message
          (find (fun rule => negb (InputValidation.ruleIsValid email phone url
                                     rule inputValue))
                (InputValidation.validation p))).
Proof.
  cbv zeta. pose proof (validateInput_as_filter p inputValue) as H.
  split; [exact H |]. split.
  - unfold InputValidation.validateInput_enhanced.
    apply (input_fold_collects inputValue (InputValidation.validation p) []).
  - intros Herr. unfold Feedback.currentError. rewrite Herr, H.
    now rewrite nth_error_map, nth_error_filter_head.
Qed.

(** On the empty value only [required] rules fail - and [async] rules,
    which the inline validator never passes. *)
Theorem validateInput_on_empty_value (p : InputValidation.props) :
  InputValidation.validateInput email phone url p []
  = map InputValidation.message
      (filter (fun rule =>
                 match InputValidation.type rule with
                 | InputValidation.required | InputValidation.async => true
                 | _ => false
                 end)
              (InputValidation.validation p)).
Proof.
  rewrite validateInput_as_filter. f_equal. apply filter_ext. intros rule.
  unfold InputValidation.ruleIsValid.
  destruct (InputValidation.type rule); reflexivity.
Qed.

End Input.

Lemma checkbox_fold_collects (checked : bool)
    (rules : list CheckboxTypes.ValidationRule) :
  forall errors,
    fold_left (CheckboxTypes.validate_step checked) rules errors
    = errors ++ map CheckboxTypes.message
                  (filter (fun rule => negb (CheckboxTypes.ruleIsValid rule checked))
                          rules).
Proof.
  induction rules as [| rule rules IH]; intros errors; simpl.
  - now rewrite app_nil_r.
  - rewrite IH. unfold CheckboxTypes.validate_step at 1.
    destruct (CheckboxTypes.ruleIsValid rule checked); simpl; [reflexivity |].
    now rewrite <- app_assoc.
Qed.

Lemma validateCheckbox_as_filter (p : CheckboxTypes.props) (checked : bool) :
  DynCheckbox.validateCheckbox p checked
  = map CheckboxTypes.message
      (filter (fun rule => negb (CheckboxTypes.ruleIsValid rule checked))
              (CheckboxTypes.validation p))
  /\ DynCheckboxEnhanced.validateCheckbox p checked
     = map CheckboxTypes.message
         (filter (fun rule => negb (CheckboxTypes.ruleIsValid rule checked))
                 (CheckboxTypes.validation p)).
Proof.
  split.
  - unfold DynCheckbox.validateCheckbox, DynCheckbox.hasEnhancedFeatures.
    destruct (CheckboxTypes.validation p) as [| rule rules] eqn:Hv.
    + simpl. now destruct (negb _ || true).
    + simpl length. rewrite !orb_true_r. simpl orb. cbv iota.
      destruct (CheckboxTypes.loading p);
        apply (checkbox_fold_collects checked (rule :: rules) []).
  - unfold DynCheckboxEnhanced.validateCheckbox.
    apply (checkbox_fold_collects checked (CheckboxTypes.validation p) []).
Qed.

Lemma required_rule_listed (p : CheckboxTypes.props)
    (rule : CheckboxTypes.ValidationRule) :
  In rule (CheckboxTypes.validation p) ->
  CheckboxTypes.type rule = CheckboxTypes.required ->
  In (CheckboxTypes.message rule)
     (map CheckboxTypes.message
        (filter (fun rule => negb (CheckboxTypes.ruleIsValid rule false))
                (CheckboxTypes.validation p))).
Proof.
  intros Hin Hreq. apply in_map. apply filter_In. split; [exact Hin |].
  unfold CheckboxTypes.ruleIsValid. now rewrite Hreq.
Qed.

(** The error list of a checkbox holds the messages of exactly the
    failing rules, in declaration order, in both variants; a [required]
    rule passes exactly when the box is checked, and its message is
    listed when it is not. *)
Theorem validateCheckbox_lists_failing_rules (p : CheckboxTypes.props)
    (checked : bool) :
  let errors :=
    map CheckboxTypes.message
        (filter (fun rule => negb (CheckboxTypes.ruleIsValid rule checked))
                (CheckboxTypes.validation p)) in
  DynCheckbox.validateCheckbox p checked = errors
  /\ DynCheckboxEnhanced.validateCheckbox p checked = errors
  /\ (forall rule,
        In rule (CheckboxTypes.validation p) ->
        CheckboxTypes.type rule = CheckboxTypes.required ->
        CheckboxTypes.ruleIsValid rule checked = checked
        /\ (checked = false -> In (CheckboxTypes.message rule) errors)).
Proof.
  cbv zeta. destruct (validateCheckbox_as_filter p checked) as [Hd He].
  split; [exact Hd |]. split; [exact He |].
  intros rule Hin Hreq.
  assert (Hv : CheckboxTypes.ruleIsValid rule checked = checked).
  { unfold CheckboxTypes.ruleIsValid. now rewrite Hreq. }
  split; [exact Hv |]. intros Hc.
  apply in_map. apply filter_In. split; [exact Hin |].
  rewrite Hv, Hc. reflexivity.
Qed.

End ValidatorMore.

(** ** The text input as a component *)

Section InputComponentMore.
Import Js DynInput.

Variables email phone url : jsstring -> bool.

Lemma run_app (p : props) (events1 events2 : list event) (s : state) :
  fst (run email phone url p (events1 ++ events2) s)
  = fst (run email phone url p events2
           (fst (run email phone url p events1 s))).
Proof.
  revert s. induction events1 as [| e events1 IH]; intros s; simpl;
    [reflexivity |].
  destruct (step email phone url p e s) as [s1 calls1].
  specialize (IH s1).
  destruct (run email phone url p (events1 ++ events2) s1) as [s2 calls2].
  destruct (run email phone url p events1 s1) as [s3 calls3].
  simpl in *. exact IH.
Qed.

(** Validation on change lags by one interaction: the first change after
    mounting never sets validation errors, whatever the rules; from the
    second change on (with [validateOnChange]) the errors are those of
    the value as displayed, mask literals included. *)
Theorem first_change_does_not_validate (p : props) (raw1 raw2 : jsstring) :
  let s1 := fst (handleChange email phone url p raw1 (mount p)) in
  validationErrors s1 = []
  /\ inputValue s1 = Mask.displayed (Mask.handleChange (maskPattern p) raw1)
  /\ (hasEnhancedFeatures p = true -> validateOnChange p = true ->
      validationErrors (fst (handleChange email phone url p raw2 s1))
      = validateInput email phone url p
          (Mask.displayed (Mask.handleChange (maskPattern p) raw2))).
Proof.
  cbv zeta. unfold handleChange. simpl.
  split; [| split].
  - destruct (hasEnhancedFeatures p); simpl; [| reflexivity].
    rewrite andb_false_r. reflexivity.
  - destruct (hasEnhancedFeatures p); simpl; [| reflexivity].
    rewrite andb_false_r. reflexivity.
  - intros He Hv. rewrite He, Hv. simpl. reflexivity.
Qed.

(** After a blur the error list is that of the stored value, whatever
    happened before, and the stored value is what it was before the
    blur. *)
Theorem blur_validates_stored_value (p : props) (events : list event)
    (s : state)
    (Henhanced : hasEnhancedFeatures p = true)
    (Hblur : validateOnBlur p = true) :
  let before := fst (run email phone url p events s) in
  let after := fst (run email phone url p (events ++ [Blur]) s) in
  inputValue after = inputValue before
  /\ validationErrors after = validateInput email phone url p (inputValue after)
  /\ hasInteracted after = true
  /\ isFocused after = false.
Proof.
  cbv zeta. rewrite run_app. simpl.
  unfold handleBlur. rewrite Henhanced, Hblur. simpl. repeat split.
Qed.

End InputComponentMore.

Lemma blur_validates_stored_value_witness :
  DynInput.validationErrors
    (fst (DynInput.run Samples.always_true Samples.always_true
            Samples.always_true MoreSamples.required_input
            [DynInput.Focus; DynInput.Change (Js.str "  "); DynInput.Blur]
            (DynInput.mount MoreSamples.required_input)))
  = [Js.str "Required"].
Proof.
  pose proof (blur_validates_stored_value Samples.always_true
                Samples.always_true Samples.always_true
                MoreSamples.required_input
                [DynInput.Focus; DynInput.Change (Js.str "  ")]
                (DynInput.mount MoreSamples.required_input)
                eq_refl eq_refl) as H.
  cbv zeta in H. destruct H as [_ [H _]]. exact H.
Defined.

(** ** The checkboxes: state kept across renders, blur and handle *)

Section CheckboxMore.
Import Js CheckboxTypes.

Lemma option_bool_eqb_refl (o : option bool) : option_bool_eqb o o = true.
Proof. destruct o as [[] |]; reflexivity. Qed.

Lemma dual_render_keeps_checked (p : props) (i : instance) :
  deps_checkedProp i = checkedProp p ->
  checked (st (DynCheckbox.render p i)) = checked (st i).
Proof.
  intros Hdeps. unfold DynCheckbox.render. simpl.
  rewrite Hdeps, option_bool_eqb_refl.
  match goal with |- context [if ?c then _ else _] => destruct c end;
    [reflexivity |].
  unfold DynCheckbox.effect_indeterminate.
  now destruct (DynCheckbox.hasEnhancedFeatures p).
Qed.

Lemma enhanced_render_keeps_checked (p : props) (i : instance) :
  deps_checkedProp i = checkedProp p ->
  checked (st (DynCheckboxEnhanced.render p i)) = checked (st i).
Proof.
  intros Hdeps. unfold DynCheckboxEnhanced.render. simpl.
  rewrite Hdeps, option_bool_eqb_refl.
  match goal with |- context [if ?c then _ else _] => destruct c end;
    reflexivity.
Qed.

(** A controlled checkbox is flipped by a user toggle even when the host
    keeps passing the old [checked] value: the next render with the
    unchanged prop leaves the flipped state in place. *)
Theorem controlled_checkbox_keeps_flipped_state (p : props) (i : instance)
    (Hactive : interactive p = true)
    (Hdeps : deps_checkedProp i = checkedProp p) :
  checked (st (DynCheckbox.render p (fst (DynCheckbox.nativeToggle p i))))
  = negb (checked (st i))
  /\ checked (st (DynCheckboxEnhanced.render p
                    (fst (DynCheckboxEnhanced.nativeToggle p i))))
     = negb (checked (st i)).
Proof.
  unfold interactive in Hactive. apply negb_true_iff in Hactive.
  split.
  - rewrite dual_render_keeps_checked.
    + unfold DynCheckbox.nativeToggle, DynCheckbox.on_change,
        DynCheckbox.handleChange.
      rewrite Hactive. now destruct (DynCheckbox.hasEnhancedFeatures p).
    + unfold DynCheckbox.nativeToggle, DynCheckbox.on_change.
      now destruct (DynCheckbox.handleChange p (negb (checked (st i))) (st i)).
  - rewrite enhanced_render_keeps_checked.
    + unfold DynCheckboxEnhanced.nativeToggle, DynCheckboxEnhanced.on_change,
        DynCheckboxEnhanced.handleChange.
      now rewrite Hactive.
    + unfold DynCheckboxEnhanced.nativeToggle, DynCheckboxEnhanced.on_change.
      now destruct (DynCheckboxEnhanced.handleChange p
                      (negb (checked (st i))) (st i)).
Qed.

Lemma controlled_checkbox_keeps_flipped_state_witness :
  checked (st (DynCheckbox.render (Samples.partial_box false)
                 (fst (DynCheckbox.nativeToggle (Samples.partial_box false)
                         (DynCheckbox.mount (Samples.partial_box false))))))
  = true.
Proof.
  apply (controlled_checkbox_keeps_flipped_state (Samples.partial_box false)
           (DynCheckbox.mount (Samples.partial_box false))); reflexivity.
Defined.

(** The handlers of the user's events keep the error list in step with
    [checked]: after any sequence of toggles, key presses and blurs on a
    mounted checkbox, an interacted checkbox shows exactly the errors of
    its current state. *)
Theorem user_events_keep_errors_in_sync (p : props) :
  (forall events,
     DynCheckboxHandle.errors_in_sync (DynCheckbox.validateCheckbox p)
       (DynCheckboxHandle.run p events (st (DynCheckbox.mount p))))
  /\ (forall events,
        DynCheckboxHandle.errors_in_sync (DynCheckboxEnhanced.validateCheckbox p)
          (DynCheckboxEnhancedHandle.run p events
             (st (DynCheckboxEnhanced.mount p)))).
Proof.
  split.
  - assert (Hstep : forall e s,
              DynCheckboxHandle.errors_in_sync (DynCheckbox.validateCheckbox p) s ->
              DynCheckboxHandle.errors_in_sync (DynCheckbox.validateCheckbox p)
                (DynCheckboxHandle.step p e s)).
    { intros e s Hs. unfold DynCheckboxHandle.errors_in_sync in *.
      destruct e; simpl.
      - unfold DynCheckbox.handleChange.
        destruct (readonly p || disabled p || loading p); [exact Hs |].
        destruct (DynCheckbox.hasEnhancedFeatures p) eqn:He; simpl;
          [reflexivity |].
        intros Hi. rewrite (Hs Hi).
        unfold DynCheckbox.validateCheckbox. now rewrite He.
      - unfold DynCheckboxHandle.handleBlur.
        destruct (DynCheckbox.hasEnhancedFeatures p); simpl;
          [reflexivity | exact Hs]. }
    assert (Hrun : forall events s,
              DynCheckboxHandle.errors_in_sync (DynCheckbox.validateCheckbox p) s ->
              DynCheckboxHandle.errors_in_sync (DynCheckbox.validateCheckbox p)
                (DynCheckboxHandle.run p events s)).
    { unfold DynCheckboxHandle.run.
      induction events as [| e events IH]; intros s Hs; simpl; [exact Hs |].
      apply IH. now apply Hstep. }
    intros events. apply Hrun.
    unfold DynCheckboxHandle.errors_in_sync, DynCheckbox.mount,
      DynCheckbox.effect_indeterminate, DynCheckbox.effect_checkedProp.
    destruct (DynCheckbox.hasEnhancedFeatures p), (checkedProp p);
      simpl; discriminate.
  - assert (Hstep : forall e s,
              DynCheckboxHandle.errors_in_sync
                (DynCheckboxEnhanced.validateCheckbox p) s ->
              DynCheckboxHandle.errors_in_sync
                (DynCheckboxEnhanced.validateCheckbox p)
                (DynCheckboxEnhancedHandle.step p e s)).
    { intros e s Hs. unfold DynCheckboxHandle.errors_in_sync in *.
      destruct e; simpl.
      - unfold DynCheckboxEnhanced.handleChange.
        destruct (readonly p || disabled p || loading p); [exact Hs |].
        reflexivity.
      - unfold DynCheckboxEnhanced.handleKeyDown.
        destruct (is_toggle_key key); [| exact Hs].
        destruct (readonly p || disabled p || loading p); [exact Hs |].
        reflexivity.
      - reflexivity. }
    assert (Hrun : forall events s,
              DynCheckboxHandle.errors_in_sync
                (DynCheckboxEnhanced.validateCheckbox p) s ->
              DynCheckboxHandle.errors_in_sync
                (DynCheckboxEnhanced.validateCheckbox p)
                (DynCheckboxEnhancedHandle.run p events s)).
    { unfold DynCheckboxEnhancedHandle.run.
      induction events as [| e events IH]; intros s Hs; simpl; [exact Hs |].
      apply IH. now apply Hstep. }
    intros events. apply Hrun.
    unfold DynCheckboxHandle.errors_in_sync, DynCheckboxEnhanced.mount,
      DynCheckboxEnhanced.effect_indeterminate,
      DynCheckboxEnhanced.effect_checkedProp.
    destruct (checkedProp p); simpl; discriminate.
Qed.

(** The handle's [toggle()] flips [checked] without validating: on a
    ticked box with a [required] rule it leaves the error list as it
    was, although the new state fails the rule. *)
Theorem handle_toggle_leaves_errors_stale (p : props) (s : state)
    (rule : ValidationRule)
    (Hactive : interactive p = true)
    (Hrule : In rule (validation p))
    (Hrequired : type rule = required)
    (Hchecked : checked s = true) :
  (let after := fst (DynCheckboxHandle.toggle p s) in
   checked after = false
   /\ validationErrors after = validationErrors s
   /\ In (message rule) (DynCheckbox.validateCheckbox p (checked after)))
  /\ (let after := fst (DynCheckboxEnhancedHandle.toggle p s) in
      checked after = false
      /\ validationErrors after = validationErrors s
      /\ In (message rule)
            (DynCheckboxEnhanced.validateCheckbox p (checked after))).
Proof.
  unfold interactive in Hactive. apply negb_true_iff in Hactive.
  destruct (validateCheckbox_as_filter p false) as [Hd He].
  pose proof (required_rule_listed p rule Hrule Hrequired) as Hlisted.
  cbv zeta. unfold DynCheckboxHandle.toggle, DynCheckboxEnhancedHandle.toggle.
  rewrite Hactive, Hchecked. split.
  - destruct (DynCheckbox.hasEnhancedFeatures p); simpl;
      (split; [reflexivity |]); (split; [reflexivity |]);
      rewrite Hd; exact Hlisted.
  - simpl. split; [reflexivity |]. split; [reflexivity |].
    rewrite He. exact Hlisted.
Qed.

Lemma handle_toggle_leaves_errors_stale_witness :
  validationErrors
    (fst (DynCheckboxHandle.toggle MoreSamples.terms_box
            (st (DynCheckbox.mount MoreSamples.terms_box)))) = []
  /\ In (str "Must accept")
        (DynCheckbox.validateCheckbox MoreSamples.terms_box false).
Proof.
  pose proof (handle_toggle_leaves_errors_stale MoreSamples.terms_box
                (st (DynCheckbox.mount MoreSamples.terms_box))
                {| CheckboxTypes.type := CheckboxTypes.required;
                   CheckboxTypes.message := str "Must accept";
                   CheckboxTypes.customValidator := None |}
                eq_refl (or_introl eq_refl) eq_refl eq_refl) as H.
  cbv zeta in H. destruct H as [[_ [Herr Hin]] _].
  split; [exact Herr | exact Hin].
Defined.

End CheckboxMore.

(** ** The validation hooks *)

Section HookMore.
Import Js Eff Hook.

Variable FormData : Type.
Variables VALIDATORS_email VALIDATORS_phone VALIDATORS_url
  : jsval -> outcome bool.
Variable formData : option FormData.

Abbreviation Rule' := (ValidationRule FormData).
Abbreviation validate_rules' :=
  (Hook.validate_rules FormData VALIDATORS_email VALIDATORS_phone
     VALIDATORS_url formData).
Abbreviation validate' :=
  (Hook.validate FormData VALIDATORS_email VALIDATORS_phone
     VALIDATORS_url formData).

(** With [stopOnFirstError] the loop adds at most one message. *)
Lemma validate_rules_stops (v : jsval) (opts : RequiredOptions)
    (rest : list Rule') :
  opt_stopOnFirstError opts = true ->
  forall newErrors console,
  exists more console',
    validate_rules' v opts rest newErrors console
    = (Returned (newErrors ++ more), console')
    /\ length more <= 1.
Proof.
  intros Hstop. induction rest as [| rule rest IH]; intros newErrors console.
  - exists [], console. simpl. unfold ret. rewrite app_nil_r. split; [reflexivity | lia].
  - simpl. unfold bind at 1.
    destruct (validateRule_returns FormData VALIDATORS_email VALIDATORS_phone
                VALIDATORS_url formData rule v console) as [r [more E]].
    rewrite E. destruct r as [m |].
    + destruct (truthy m).
      * rewrite Hstop. exists [m]. eexists. split; [reflexivity | simpl; lia].
      * apply IH.
    + apply IH.
Qed.

(** With [stopOnFirstError] the stored error list holds the custom error,
    if one is present, and at most one rule message: the custom error
    does not count as the first error. *)
Theorem stopOnFirstError_keeps_one_rule_error (v : jsval) (rules : list Rule')
    (opts : RequiredOptions) (s : hook_state) (console : list diag)
    (Hstop : opt_stopOnFirstError opts = true) :
  exists b s' console' more,
    validate' v rules opts s console = (Returned (b, s'), console')
    /\ errors s' = if_present (customError s) ++ more
    /\ length more <= 1.
Proof.
  unfold Hook.validate.
  destruct ((length rules =? 0) && negb (truthy_opt (customError s))) eqn:Hg.
  - apply andb_true_iff in Hg. destruct Hg as [_ Hc].
    apply negb_true_iff in Hc.
    exists true. eexists. exists console, []. split; [reflexivity |].
    simpl. split; [| lia].
    unfold if_present. destruct (customError s) as [e |]; [| reflexivity].
    simpl in Hc. now rewrite Hc.
  - unfold bind.
    destruct (validate_rules_stops v opts rules Hstop
                (if_present (customError s)) console) as [more [c' [E Hlen]]].
    rewrite E. eexists. eexists. exists c', more.
    split; [reflexivity |]. split; [reflexivity | exact Hlen].
Qed.

(** Between two operations nothing is being validated; then the boolean
    [validate()] resolves to is the [isValid] the hook returns
    afterwards, and [hasError] is its negation. *)
Theorem validate_agrees_with_isValid (v : jsval) (rules : list Rule')
    (opts : RequiredOptions) (s : hook_state) (console : list diag)
    (Hidle : isValidating s = false) :
  exists b s' console',
    validate' v rules opts s console = (Returned (b, s'), console')
    /\ isValid (result s') = b
    /\ hasError (result s') = negb b
    /\ isValidating s' = false.
Proof.
  unfold Hook.validate.
  destruct ((length rules =? 0) && negb (truthy_opt (customError s))) eqn:Hg.
  - apply andb_true_iff in Hg. destruct Hg as [_ Hc].
    apply negb_true_iff in Hc.
    exists true. eexists. exists console. split; [reflexivity |].
    unfold result, allErrors. simpl.
    assert (Hp : if_present (customError s) = []).
    { unfold if_present. destruct (customError s) as [e |]; [| reflexivity].
      simpl in Hc. now rewrite Hc. }
    rewrite Hp, Hidle. repeat split.
  - unfold bind.
    destruct (validate_rules_extends FormData VALIDATORS_email VALIDATORS_phone
                VALIDATORS_url formData v opts rules
                (if_present (customError s)) console) as [me [mc E]].
    rewrite E. eexists. eexists. eexists. split; [reflexivity |].
    unfold result, allErrors. simpl.
    destruct (if_present (customError s)) as [| e l]; simpl.
    + destruct me; repeat split.
    + repeat split.
Qed.

(** A falsy value - the empty string, but also the number 0 and [false] -
    passes every rule of type email, phone, url, min, max or pattern
    without the test being run: with only such rules and no custom error
    [validate()] resolves to [true], stores no error and logs nothing. *)
Theorem falsy_value_skips_format_rules (v : jsval) (rules : list Rule')
    (opts : RequiredOptions) (s : hook_state) (console : list diag)
    (Hfalsy : truthy_val v = false)
    (Hrules : forallb (fun rule => HookSimple.skips_falsy (type FormData rule))
                      rules = true)
    (Hcustom : truthy_opt (customError s) = false) :
  exists s',
    validate' v rules opts s console = (Returned (true, s'), console)
    /\ errors s' = []
    /\ res_errors (result s') = [].
Proof.
  assert (Hp : if_present (customError s) = []).
  { unfold if_present. destruct (customError s) as [e |]; [| reflexivity].
    simpl in Hcustom. now rewrite Hcustom. }
  assert (Hloop : forall console0,
            validate_rules' v opts rules [] console0 = (Returned [], console0)).
  { induction rules as [| rule rest IH]; intros console0; [reflexivity |].
    simpl in Hrules. apply andb_true_iff in Hrules.
    destruct Hrules as [Hrule Hrest].
    simpl. unfold bind at 1.
    assert (E : Hook.validateRule FormData VALIDATORS_email VALIDATORS_phone
                  VALIDATORS_url formData rule v console0
                = (Returned None, console0)).
    { unfold Hook.validateRule, try_catch, unless_empty, conclude, bind, ret.
      destruct (type FormData rule); try discriminate Hrule;
        rewrite Hfalsy; reflexivity. }
    rewrite E. now apply IH. }
  unfold Hook.validate. rewrite Hp.
  destruct ((length rules =? 0) && negb (truthy_opt (customError s))).
  - eexists. split; [reflexivity |]. unfold result, allErrors. simpl.
    rewrite Hp. split; reflexivity.
  - unfold bind. rewrite Hloop. eexists. split; [reflexivity |].
    unfold result, allErrors. simpl. rewrite Hp. split; reflexivity.
Qed.

End HookMore.

Lemma stopOnFirstError_keeps_one_rule_error_witness :
  exists b s' console' more,
    Hook.validate unit Samples.always_valid Samples.always_valid
      Samples.always_valid None (Hook.VStr [])
      [Samples.bare_rule Hook.required (Js.str "Required");
       Samples.bare_rule Hook.custom (Js.str "Must agree")]
      {| Hook.opt_validateOnChange := true; Hook.opt_validateOnBlur := true;
         Hook.opt_validateOnMount := false; Hook.opt_debounceMs := 300;
         Hook.opt_stopOnFirstError := true |}
      (Hook.setCustomErrorHandler (Some (Js.str "Taken")) Hook.initial_state) []
    = (Eff.Returned (b, s'), console')
    /\ Hook.errors s' = [Js.str "Taken"] ++ more
    /\ length more <= 1.
Proof.
  apply (stopOnFirstError_keeps_one_rule_error unit Samples.always_valid
           Samples.always_valid Samples.always_valid None).
  reflexivity.
Defined.

Lemma validate_agrees_with_isValid_witness :
  exists b s' console',
    Hook.validate unit Samples.always_valid Samples.always_valid
      Samples.always_valid None (Hook.VStr [])
      [Samples.bare_rule Hook.required (Js.str "Required")]
      Hook.DEFAULT_OPTIONS Hook.initial_state []
    = (Eff.Returned (b, s'), console')
    /\ Hook.isValid (Hook.result s') = b
    /\ Hook.hasError (Hook.result s') = negb b
    /\ Hook.isValidating s' = false.
Proof.
  apply (validate_agrees_with_isValid unit Samples.always_valid
           Samples.always_valid Samples.always_valid None).
  reflexivity.
Defined.

Lemma falsy_value_skips_format_rules_witness :
  exists s',
    Hook.validate unit Samples.always_valid Samples.always_valid
      Samples.always_valid None (Hook.VNum 0)
      [ {| Hook.type := Hook.min; Hook.message := Js.str "At least 5";
           Hook.value := Hook.VNum 5; Hook.rule_pattern := None;
           Hook.customValidator := None; Hook.asyncValidator := None;
           Hook.dependencies := [] |} ]
      Hook.DEFAULT_OPTIONS Hook.initial_state []
    = (Eff.Returned (true, s'), [])
    /\ Hook.errors s' = []
    /\ Hook.res_errors (Hook.result s') = [].
Proof.
  apply (falsy_value_skips_format_rules unit Samples.always_valid
           Samples.always_valid Samples.always_valid None);
    reflexivity.
Defined.

Section SimpleHookMore.
Import Js Hook.

(** [useSimpleValidation]'s [validate()] returns [true] exactly when it
    clears the error; an error it sets is never the empty string; and a
    failed required check wins over the custom validator. *)
Theorem simple_validate_result (value : jsval) (required : bool)
    (customValidator : option (jsval -> option jsstring)) :
  let r := HookSimple.validate value required customValidator in
  (fst r = true <-> snd r = None)
  /\ (forall e, snd r = Some e -> truthy e = true)
  /\ (required = true -> VALIDATORS_required value = false ->
      r = (false, Some (str "This field is required")))
  /\ (customValidator = None ->
      fst r = negb required || VALIDATORS_required value).
Proof.
  cbv zeta. unfold HookSimple.validate.
  destruct required, (VALIDATORS_required value); simpl;
    destruct customValidator as [f |]; try destruct (f value) as [e |];
    try destruct (truthy e) eqn:He; simpl;
    repeat split; try discriminate; try reflexivity; try congruence;
    intros e0 H0; inversion H0; subst; try assumption; reflexivity.
Qed.

End SimpleHookMore.

(** ** Class names *)

Section ClassNamesMore.
Import Js ClassNames.

Lemma cn_step_nothing (classes : list jsstring) (input : cn_input) :
  contributes_nothing input = true -> cn_step classes input = classes.
Proof.
  destruct input as [s | | | b | entries]; simpl; intros H;
    try reflexivity.
  - apply negb_true_iff in H. now rewrite H.
  - revert classes. induction entries as [| [k b] entries IH]; intros classes;
      [reflexivity |].
    simpl in H. apply andb_true_iff in H. destruct H as [Hb Hrest].
    apply negb_true_iff in Hb. simpl in Hb. simpl. rewrite Hb.
    now apply IH.
Qed.

(** Inputs that are falsy - [false], [null], [undefined], the empty
    string - contribute nothing to the class string, wherever they
    stand among the arguments; neither does [true], nor an object whose
    values are all false.  With only such inputs the result is empty. *)
Theorem cn_ignores_falsy_inputs (before after : list cn_input)
    (input : cn_input) (Hnothing : contributes_nothing input = true) :
  cn (before ++ input :: after) = cn (before ++ after)
  /\ (forallb contributes_nothing before = true -> cn before = []).
Proof.
  split.
  - unfold cn. rewrite !fold_left_app. simpl.
    now rewrite (cn_step_nothing _ input Hnothing).
  - intros Hall. unfold cn.
    assert (H : forall classes, fold_left cn_step before classes = classes).
    { induction before as [| x rest IH]; intros classes; [reflexivity |].
      simpl in Hall. apply andb_true_iff in Hall. destruct Hall as [Hx Hrest].
      simpl. rewrite (cn_step_nothing classes x Hx). now apply IH. }
    now rewrite H.
Qed.

Lemma cn_ignores_falsy_inputs_witness :
  cn [CnString (str "dyn-input"); CnBoolean false;
      CnObject [(str "dyn-input--error", true)]]
  = cn [CnString (str "dyn-input");
        CnObject [(str "dyn-input--error", true)]].
Proof.
  apply (cn_ignores_falsy_inputs [CnString (str "dyn-input")]
           [CnObject [(str "dyn-input--error", true)]] (CnBoolean false)).
  reflexivity.
Defined.

End ClassNamesMore.

(** ** The data table: sort header and selection *)

Section TableControlsMore.
Import Js Table TableControls.

Lemma jsstring_eqb_eq (a b : jsstring) : jsstring_eqb a b = true <-> a = b.
Proof.
  unfold jsstring_eqb. destruct (list_eq_dec ascii_dec a b); split;
    try discriminate; try reflexivity; intros H; try assumption.
  contradiction.
Qed.

Lemma jsstring_eqb_refl (a : jsstring) : jsstring_eqb a a = true.
Proof. now apply jsstring_eqb_eq. Qed.

(** A click on a header sorts by that column; a second click on the same
    header reverses the direction, a third click restores it; a click on
    another header starts ascending again. *)
Theorem handleSort_alternates (internalSortConfig : option SortConfig)
    (columnKey : jsstring) :
  let first := handleSort internalSortConfig columnKey in
  let second := handleSort (Some first) columnKey in
  sort_key first = columnKey
  /\ (internalSortConfig = None -> sort_direction first = asc)
  /\ second = {| sort_key := columnKey;
                 sort_direction := opposite (sort_direction first) |}
  /\ handleSort (Some second) columnKey = first
  /\ (forall otherKey,
        otherKey <> columnKey ->
        handleSort (Some first) otherKey
        = {| sort_key := otherKey; sort_direction := asc |}).
Proof.
  cbv zeta. unfold handleSort. simpl. rewrite !jsstring_eqb_refl. simpl.
  split; [reflexivity |]. split; [intros H; now rewrite H |].
  split.
  { destruct internalSortConfig as [cfg |]; simpl; [| reflexivity].
    now destruct (jsstring_eqb (sort_key cfg) columnKey && _). }
  split.
  { destruct internalSortConfig as [cfg |]; simpl; [| reflexivity].
    now destruct (jsstring_eqb (sort_key cfg) columnKey && _). }
  intros otherKey Hother.
  assert (H : jsstring_eqb columnKey otherKey = false).
  { destruct (jsstring_eqb columnKey otherKey) eqn:E; [| reflexivity].
    apply jsstring_eqb_eq in E. now subst. }
  now rewrite H.
Qed.

Variable T : Type.

Lemma deselect_after_select (keys : list jsstring) (k : jsstring) :
  ~ In k keys ->
  filter (fun k' => negb (jsstring_eqb k' k)) (keys ++ [k]) = keys.
Proof.
  intros Hk. rewrite filter_app. simpl. rewrite jsstring_eqb_refl. simpl.
  rewrite app_nil_r.
  induction keys as [| a keys IH]; [reflexivity |]. simpl.
  destruct (jsstring_eqb a k) eqn:E.
  - apply jsstring_eqb_eq in E. subst a. exfalso. apply Hk. now left.
  - simpl. f_equal. apply IH. intros H. apply Hk. now right.
Qed.

(** Selecting a row that is not selected and then deselecting it, with
    the host applying each reported key list, reports the original key
    list again; what is reported after the deselection holds neither the
    key nor a record with that key. *)
Theorem row_select_then_deselect (rs : SelectionConfig T)
    (dataSource : list T) (rowKey : jsstring)
    (Hfresh : ~ In rowKey (selectedRowKeys rs))
    (Hhandler : onSelect rs = true) :
  exists selectedRows deselectedRows,
    handleRowSelect (Some rs) dataSource rowKey true
    = [(selectedRowKeys rs ++ [rowKey], selectedRows)]
    /\ handleRowSelect
         (Some (with_keys rs (selectedRowKeys rs ++ [rowKey])))
         dataSource rowKey false
       = [(selectedRowKeys rs, deselectedRows)]
    /\ deselectedRows = filter (isSelected rs) dataSource
    /\ (forall record, In record deselectedRows -> getRowKey rs record <> rowKey).
Proof.
  eexists. eexists. unfold handleRowSelect. simpl. rewrite Hhandler.
  rewrite (deselect_after_select _ _ Hfresh).
  split; [reflexivity |]. split; [reflexivity |]. split; [reflexivity |].
  intros record Hin Hkey. apply filter_In in Hin. destruct Hin as [_ Hsel].
  unfold isSelected in Hsel. apply existsb_exists in Hsel.
  destruct Hsel as [k [Hk Heq]]. apply jsstring_eqb_eq in Heq.
  apply Hfresh. now rewrite <- Hkey, Heq.
Qed.

(** When the row keys are distinct and the selected keys are distinct
    keys of rows, a checked header means that every row is selected, and
    conversely. *)
Theorem header_checked_iff_all_selected (rs : SelectionConfig T)
    (dataSource : list T)
    (Hrows : dataSource <> [])
    (Hdistinct : NoDup (map (getRowKey rs) dataSource))
    (Hselected : NoDup (selectedRowKeys rs))
    (Hknown : incl (selectedRowKeys rs) (map (getRowKey rs) dataSource)) :
  sel_checked (selectionState (Some rs) dataSource) = true
  <-> forall record, In record dataSource -> isSelected rs record = true.
Proof.
  unfold selectionState.
  destruct dataSource as [| r rest] eqn:Hds; [now contradiction Hrows |].
  rewrite <- Hds in *. 
  assert (Hnz : (length dataSource =? 0) = false) by now rewrite Hds.
  rewrite Hnz. simpl sel_checked. rewrite Nat.eqb_eq.
  assert (Hlen : length (map (getRowKey rs) dataSource) = length dataSource)
    by apply length_map.
  split.
  - intros Heq record Hin. unfold isSelected. apply existsb_exists.
    exists (getRowKey rs record). split; [| apply jsstring_eqb_refl].
    apply (NoDup_length_incl Hselected (l' := map (getRowKey rs) dataSource));
      [lia | exact Hknown | now apply in_map].
  - intros Hall. apply Nat.le_antisymm.
    + rewrite <- Hlen. now apply NoDup_incl_length.
    + rewrite <- Hlen. apply NoDup_incl_length; [exact Hdistinct |].
      intros k Hk. apply in_map_iff in Hk. destruct Hk as [record [Hkey Hin]].
      specialize (Hall record Hin). unfold isSelected in Hall.
      apply existsb_exists in Hall. destruct Hall as [k' [Hk' Heq]].
      apply jsstring_eqb_eq in Heq. now rewrite <- Hkey, Heq.
Qed.

End TableControlsMore.

Lemma row_select_then_deselect_witness :
  exists selectedRows deselectedRows,
    Table.handleRowSelect (Some (MoreSamples.selection [Js.str "1"]))
      MoreSamples.three_records (Js.str "2") true
    = [([Js.str "1"; Js.str "2"], selectedRows)]
    /\ Table.handleRowSelect
         (Some (MoreSamples.selection [Js.str "1"; Js.str "2"]))
         MoreSamples.three_records (Js.str "2") false
       = [([Js.str "1"], deselectedRows)]
    /\ deselectedRows = [1%Z].
Proof.
  destruct (row_select_then_deselect Z (MoreSamples.selection [Js.str "1"])
              MoreSamples.three_records (Js.str "2"))
    as [selectedRows [deselectedRows [Hsel [Hdesel [Hrows _]]]]].
  - intros [H | []]. discriminate H.
  - reflexivity.
  - exists selectedRows, deselectedRows.
    split; [exact Hsel |]. split; [exact Hdesel |].
    rewrite Hrows. reflexivity.
Defined.

Lemma header_checked_iff_all_selected_witness :
  Table.sel_checked
    (Table.selectionState
       (Some (MoreSamples.selection [Js.str "3"; Js.str "1"; Js.str "2"]))
       MoreSamples.three_records) = true
  <-> forall record,
        In record MoreSamples.three_records ->
        TableControls.isSelected
          (MoreSamples.selection [Js.str "3"; Js.str "1"; Js.str "2"]) record = true.
Proof.
  apply (header_checked_iff_all_selected Z
           (MoreSamples.selection [Js.str "3"; Js.str "1"; Js.str "2"])
           MoreSamples.three_records).
  - discriminate.
  - vm_compute. repeat constructor; simpl; intuition discriminate.
  - vm_compute. repeat constructor; simpl; intuition discriminate.
  - vm_compute. intros k Hk. intuition.
Defined.

(** ** The data table: pages *)

Section PaginationMore.
Import Js Table TableControls.

Variable A : Type.

Lemma firstn_plus (a b : nat) (l : list A) :
  firstn (a + b) l = firstn a l ++ firstn b (skipn a l).
Proof.
  revert l. induction a as [| a IH]; intros l; [reflexivity |].
  destruct l as [| x l]; simpl.
  - now rewrite firstn_nil.
  - now rewrite IH.
Qed.

Lemma pages_concat (size : nat) (l : list A) (m : nat) :
  List.concat (map (fun n => firstn size (skipn ((n - 1) * size) l)) (seq 1 m))
  = firstn (m * size) l.
Proof.
  induction m as [| m IH]; [reflexivity |].
  rewrite seq_S, map_app, concat_app, IH. simpl.
  rewrite app_nil_r.
  replace (m - 0) with m by lia.
  replace (size + m * size) with (m * size + size) by lia.
  symmetry. apply firstn_plus.
Qed.

Lemma page_as_firstn (processed : list A) (pg : Pagination) (n : nat) :
  (0 < pageSize pg)%Z -> 1 <= n ->
  paginatedData (Some (on_page pg (Z.of_nat n))) processed
  = firstn (Z.to_nat (pageSize pg))
      (skipn ((n - 1) * Z.to_nat (pageSize pg)) processed).
Proof.
  intros Hsize Hn. unfold paginatedData, on_page. simpl.
  rewrite slice_page by nia. f_equal. f_equal. nia.
Qed.

(** The pages, taken in order from 1 to the page count, make up the
    processed list: no record is lost or shown twice, provided [total]
    is the number of processed records. *)
Theorem pages_partition_processed (processed : list A) (pg : Pagination)
    (Hsize : (0 < pageSize pg)%Z)
    (Htotal : total pg = Z.of_nat (length processed)) :
  List.concat (map (fun n => paginatedData (Some (on_page pg (Z.of_nat n))) processed)
              (seq 1 (Z.to_nat (pageCount pg))))
  = processed.
Proof.
  rewrite (map_ext_in _
             (fun n => firstn (Z.to_nat (pageSize pg))
                         (skipn ((n - 1) * Z.to_nat (pageSize pg)) processed))).
  - rewrite pages_concat. apply firstn_all2.
    pose proof (ceil_div_spec (total pg) (pageSize pg) Hsize) as [_ Hle].
    fold (pageCount pg) in Hle. nia.
  - intros n Hn. apply in_seq in Hn. apply page_as_firstn; [exact Hsize | lia].
Qed.

(** On a page within the page count the info line names the first and
    the last record shown: "from" is the index after the page's start,
    "to" lies between "from" and [total], and "to - from + 1" rows are
    rendered.  Again [total] is the number of processed records. *)
Theorem info_line_matches_rows (processed : list A) (pg : Pagination)
    (Hsize : (0 < pageSize pg)%Z)
    (Htotal : total pg = Z.of_nat (length processed))
    (Hpage : (1 <= current pg <= pageCount pg)%Z) :
  showingFrom pg = ((current pg - 1) * pageSize pg + 1)%Z
  /\ (1 <= showingFrom pg <= showingTo pg)%Z
  /\ (showingTo pg <= total pg)%Z
  /\ Z.of_nat (length (paginatedData (Some pg) processed))
     = (showingTo pg - showingFrom pg + 1)%Z.
Proof.
  pose proof (ceil_div_spec (total pg) (pageSize pg) Hsize) as [Hlt Hle].
  fold (pageCount pg) in Hlt, Hle.
  assert (Hstart : ((current pg - 1) * pageSize pg < total pg)%Z) by nia.
  unfold showingFrom, showingTo, paginatedData.
  rewrite slice_page by nia.
  rewrite length_firstn, length_skipn.
  rewrite (Z.min_l ((current pg - 1) * pageSize pg + 1)) by lia.
  split; [reflexivity |]. split; [nia |]. split; [lia |].
  destruct (Z_le_gt_dec (current pg * pageSize pg) (total pg)) as [Hfit | Hover].
  - rewrite Z.min_l by lia. nia.
  - rewrite Z.min_r by lia. nia.
Qed.

(** The next button is enabled exactly when the next page has a row to
    show, and the previous button is disabled exactly on page 1. *)
Theorem next_enabled_iff_more_rows (processed : list A) (pg : Pagination)
    (Hsize : (0 < pageSize pg)%Z)
    (Htotal : total pg = Z.of_nat (length processed))
    (Hpage : (1 <= current pg)%Z) :
  (nextDisabled pg = false
   <-> paginatedData (Some (on_page pg (current pg + 1))) processed <> [])
  /\ (previousDisabled pg = true <-> current pg = 1%Z).
Proof.
  pose proof (ceil_div_spec (total pg) (pageSize pg) Hsize) as [Hlt Hle].
  fold (pageCount pg) in Hlt, Hle.
  split; [| unfold previousDisabled; apply Z.eqb_eq].
  unfold nextDisabled, paginatedData, on_page. simpl.
  rewrite slice_page by nia.
  rewrite Z.leb_gt.
  split.
  - intros Hnext Hempty.
    apply (f_equal (@length A)) in Hempty.
    rewrite length_firstn, length_skipn in Hempty. simpl in Hempty. nia.
  - intros Hrows.
    destruct (Z_lt_le_dec (current pg) (pageCount pg)) as [Hlt' | Hge];
      [exact Hlt' |].
    exfalso. apply Hrows.
    rewrite skipn_all2 by nia. apply firstn_nil.
Qed.

End PaginationMore.

Lemma pages_partition_processed_witness :
  List.concat
    (map (fun n =>
            Table.paginatedData
              (Some (TableControls.on_page (Samples.sample_page 1) (Z.of_nat n)))
              Samples.sample_data)
         (seq 1 (Z.to_nat (Table.pageCount (Samples.sample_page 1)))))
  = Samples.sample_data.
Proof.
  apply (pages_partition_processed Z Samples.sample_data (Samples.sample_page 1)).
  - reflexivity.
  - reflexivity.
Defined.

Lemma info_line_matches_rows_witness :
  TableControls.showingFrom (Samples.sample_page 3) = 21%Z
  /\ TableControls.showingTo (Samples.sample_page 3) = 25%Z
  /\ Z.of_nat (length (Table.paginatedData (Some (Samples.sample_page 3))
                         Samples.sample_data))
     = (TableControls.showingTo (Samples.sample_page 3)
        - TableControls.showingFrom (Samples.sample_page 3) + 1)%Z.
Proof.
  destruct (info_line_matches_rows Z Samples.sample_data (Samples.sample_page 3))
    as [Hfrom [_ [_ Hrows]]].
  - reflexivity.
  - reflexivity.
  - vm_compute. split; discriminate.
  - split; [exact Hfrom |]. split; [reflexivity | exact Hrows].
Defined.

Lemma next_enabled_iff_more_rows_witness :
  (TableControls.nextDisabled (Samples.sample_page 2) = false
   <-> Table.paginatedData
         (Some (TableControls.on_page (Samples.sample_page 2) (2 + 1)))
         Samples.sample_data <> [])
  /\ (TableControls.previousDisabled (Samples.sample_page 2) = true
      <-> 2%Z = 1%Z).
Proof.
  apply (next_enabled_iff_more_rows Z Samples.sample_data (Samples.sample_page 2)).
  - reflexivity.
  - reflexivity.
  - vm_compute. discriminate.
Defined.

(** ** The data table: what the pipeline keeps *)

Section SliceMore.
Import Table.

Variable A : Type.

Lemma slice_incl (l : list A) (start end_ : Z) : incl (slice l start end_) l.
Proof.
  unfold slice. intros x Hx.
  set (n := Z.to_nat _) in Hx. set (k := Z.to_nat _) in Hx.
  rewrite <- (firstn_skipn k l). apply in_or_app. right.
  rewrite <- (firstn_skipn n (skipn k l)). apply in_or_app. now left.
Qed.

Lemma slice_length (l : list A) (start size : Z) :
  (0 <= size)%Z -> length (slice l start (start + size)) <= Z.to_nat size.
Proof.
  intros Hsize. unfold slice. rewrite length_firstn.
  destruct (start <? 0)%Z eqn:Hs; destruct (start + size <? 0)%Z eqn:He;
    try apply Z.ltb_lt in Hs; try apply Z.ltb_ge in Hs;
    try apply Z.ltb_lt in He; try apply Z.ltb_ge in He; lia.
Qed.

End SliceMore.

Section PipelineMore.
Import Js Table.

Variables T V : Type.
Variable get : T -> jsstring -> V.
Variable String_ : V -> jsstring.
Variable js_lt : V -> V -> bool.
Variable columns : list (TableColumn T V).

Lemma processed_incl (dataSource : list T) (internalFilters : FilterConfig)
    (internalSortConfig : option SortConfig) :
  incl (processedData get String_ js_lt columns dataSource internalFilters
          internalSortConfig) dataSource
  /\ length (processedData get String_ js_lt columns dataSource
               internalFilters internalSortConfig) <= length dataSource.
Proof.
  unfold processedData.
  assert (Hperm : Permutation
            (applySort get js_lt columns internalSortConfig
               (applyFilters get String_ columns internalFilters dataSource))
            (applyFilters get String_ columns internalFilters dataSource)).
  { unfold applySort. destruct internalSortConfig as [cfg |];
      [| apply Permutation_refl].
    destruct (find_column columns (sort_key cfg));
      [apply sort_permutation | apply Permutation_refl]. }
  split.
  - intros r Hr. apply (Permutation_in _ Hperm) in Hr.
    rewrite applyFilters_filter in Hr. apply filter_In in Hr. now destruct Hr.
  - rewrite (Permutation_length Hperm), applyFilters_filter.
    apply filter_length_le.
Qed.

(** The table never shows a record it was not given: the rendered rows
    are records of the data source that pass the filters, there are at
    most as many as records, and with pagination at most [pageSize]. *)
Theorem rows_come_from_dataSource (dataSource : list T)
    (internalFilters : FilterConfig) (internalSortConfig : option SortConfig)
    (pagination : option Pagination) :
  let shown :=
    rows get String_ js_lt columns dataSource internalFilters
      internalSortConfig pagination in
  (forall record,
     In record shown ->
     In record dataSource
     /\ passes get String_ columns internalFilters record = true)
  /\ length shown <= length dataSource
  /\ (forall pg, pagination = Some pg -> (0 <= pageSize pg)%Z ->
      length shown <= Z.to_nat (pageSize pg)).
Proof.
  cbv zeta. unfold rows.
  destruct (processed_incl dataSource internalFilters internalSortConfig)
    as [Hincl Hlen].
  assert (Hshown : incl (paginatedData pagination
                           (processedData get String_ js_lt columns dataSource
                              internalFilters internalSortConfig))
                        (processedData get String_ js_lt columns dataSource
                           internalFilters internalSortConfig)).
  { destruct pagination as [pg |]; [apply slice_incl | apply incl_refl]. }
  split; [| split].
  - intros record Hin. apply Hshown in Hin.
    split; [now apply Hincl |].
    unfold processedData in Hin.
    assert (Hf : In record
                   (applyFilters get String_ columns internalFilters dataSource)).
    { unfold applySort in Hin. destruct internalSortConfig as [cfg |];
        [| exact Hin].
      destruct (find_column columns (sort_key cfg)); [| exact Hin].
      exact (Permutation_in _ (sort_permutation _ _ _) Hin). }
    rewrite applyFilters_filter in Hf. apply filter_In in Hf. now destruct Hf.
  - destruct pagination as [pg |]; [| exact Hlen].
    unfold paginatedData, slice. rewrite length_firstn, length_skipn. lia.
  - intros pg Hpg Hsize. rewrite Hpg. unfold paginatedData.
    now apply slice_length.
Qed.

Lemma passes_permutation (filters filters' : FilterConfig) (record : T) :
  Permutation filters filters' ->
  passes get String_ columns filters record
  = passes get String_ columns filters' record.
Proof.
  unfold passes. induction 1 as [| e l l' _ IH | e e' l | l l' l'' _ IH1 _ IH2];
    simpl.
  - reflexivity.
  - now rewrite IH.
  - now rewrite !andb_assoc, (andb_comm (_ || _) (_ || _)).
  - now rewrite IH1.
Qed.

(** The order in which the filter entries are applied does not matter,
    and entries with an empty filter text can be left out. *)
Theorem applyFilters_order_irrelevant (filters filters' : FilterConfig)
    (dataSource : list T) (Hperm : Permutation filters filters') :
  applyFilters get String_ columns filters dataSource
  = applyFilters get String_ columns filters' dataSource
  /\ applyFilters get String_ columns
       (filter (fun entry => truthy (snd entry)) filters) dataSource
     = applyFilters get String_ columns filters dataSource.
Proof.
  rewrite !applyFilters_filter. split.
  - apply filter_ext. intros record. now apply passes_permutation.
  - clear Hperm. apply filter_ext. intros record. unfold passes.
    induction filters as [| [k fv] rest IH]; [reflexivity |]. simpl.
    destruct (truthy fv) eqn:Hfv; simpl.
    + rewrite Hfv. simpl. f_equal. apply IH.
    + apply IH.
Qed.

End PipelineMore.

Lemma applyFilters_order_irrelevant_witness :
  Table.applyFilters Samples.sample_get Samples.sample_String
    Samples.sample_columns
    [(Js.str "id", Js.str "low"); (Js.str "name", Js.str "x")]
    Samples.sample_data
  = Table.applyFilters Samples.sample_get Samples.sample_String
      Samples.sample_columns
      [(Js.str "name", Js.str "x"); (Js.str "id", Js.str "low")]
      Samples.sample_data.
Proof.
  apply (applyFilters_order_irrelevant Z Z Samples.sample_get
           Samples.sample_String Samples.sample_columns
           [(Js.str "id", Js.str "low"); (Js.str "name", Js.str "x")]
           [(Js.str "name", Js.str "x"); (Js.str "id", Js.str "low")]
           Samples.sample_data).
  apply perm_swap.
Defined.

(** ** Token keys and custom properties *)

Section TokenMore.
Import Js Tokens.

Lemma replaceInvalid_allowed (s : jsstring) :
  forallb allowed (replaceInvalid s) = true.
Proof.
  unfold replaceInvalid. induction s as [| c s IH]; [reflexivity |].
  simpl. rewrite IH, andb_true_r.
  destruct (allowed c) eqn:Hc; [exact Hc | reflexivity].
Qed.

Lemma collapseDashes_cons (c : ascii) (s : jsstring) :
  Ascii.eqb c dash = false ->
  collapseDashes (c :: s) = c :: collapseDashes s.
Proof. intros H. simpl. now rewrite H. Qed.

Lemma collapseDashes_In (c : ascii) (s : jsstring) :
  In c (collapseDashes s) -> In c s.
Proof.
  induction s as [| a s IH]; [intros [] |].
  destruct (Ascii.eqb a dash) eqn:Ha.
  - destruct s as [| d s].
    + simpl. rewrite Ha. exact (fun H => H).
    + change (collapseDashes (a :: d :: s))
        with (if Ascii.eqb a dash
              then if Ascii.eqb d dash then collapseDashes (d :: s)
                   else a :: collapseDashes (d :: s)
              else a :: collapseDashes (d :: s)).
      rewrite Ha. destruct (Ascii.eqb d dash).
      * intros H. right. now apply IH.
      * intros [H | H]; [now left | right; now apply IH].
  - rewrite (collapseDashes_cons a s Ha).
    intros [H | H]; [now left | right; now apply IH].
Qed.

Lemma collapseDashes_allowed (s : jsstring) :
  forallb allowed s = true -> forallb allowed (collapseDashes s) = true.
Proof.
  intros H. apply forallb_forall. intros c Hc.
  apply collapseDashes_In in Hc. revert c Hc. now apply forallb_forall.
Qed.

Lemma no_double_dash_cons (c : ascii) (s : jsstring) :
  Ascii.eqb c dash = false -> no_double_dash (c :: s) = no_double_dash s.
Proof.
  intros H. destruct s as [| d s]; [reflexivity |].
  change (no_double_dash (c :: d :: s))
    with (negb (Ascii.eqb c dash && Ascii.eqb d dash) && no_double_dash (d :: s)).
  now rewrite H.
Qed.

Lemma no_double_dash_tail (c : ascii) (s : jsstring) :
  no_double_dash (c :: s) = true -> no_double_dash s = true.
Proof.
  destruct s as [| d s]; [reflexivity |].
  change (no_double_dash (c :: d :: s))
    with (negb (Ascii.eqb c dash && Ascii.eqb d dash) && no_double_dash (d :: s)).
  intros H. apply andb_true_iff in H. now destruct H.
Qed.

Lemma collapseDashes_no_double_dash (s : jsstring) :
  no_double_dash (collapseDashes s) = true.
Proof.
  induction s as [| c s IH]; [reflexivity |].
  destruct (Ascii.eqb c dash) eqn:Hc.
  - destruct s as [| d s].
    + simpl. now rewrite Hc.
    + change (collapseDashes (c :: d :: s))
        with (if Ascii.eqb c dash
              then if Ascii.eqb d dash then collapseDashes (d :: s)
                   else c :: collapseDashes (d :: s)
              else c :: collapseDashes (d :: s)).
      rewrite Hc. destruct (Ascii.eqb d dash) eqn:Hd; [exact IH |].
      rewrite (collapseDashes_cons d s Hd) in *.
      change (no_double_dash (c :: d :: collapseDashes s))
        with (negb (Ascii.eqb c dash && Ascii.eqb d dash)
              && no_double_dash (d :: collapseDashes s)).
      now rewrite Hc, Hd, IH.
  - rewrite (collapseDashes_cons c s Hc).
    now rewrite (no_double_dash_cons c _ Hc).
Qed.

Lemma no_leading_dash_app (s t : jsstring) :
  s <> [] -> no_leading_dash (s ++ t) = no_leading_dash s.
Proof. destruct s as [| c s]; [now intros H | reflexivity]. Qed.

Lemma rev_not_nil (s : jsstring) : s <> [] -> rev s <> [].
Proof.
  intros Hs Hr. apply Hs. rewrite <- (rev_involutive s), Hr. reflexivity.
Qed.

Lemma no_double_dash_snoc (s : jsstring) (c : ascii) :
  no_double_dash (s ++ [c])
  = no_double_dash s
    && negb (negb (no_leading_dash (rev s)) && Ascii.eqb c dash).
Proof.
  induction s as [| a s IH]; [reflexivity |].
  destruct s as [| b s].
  - simpl. destruct (Ascii.eqb a dash), (Ascii.eqb c dash); reflexivity.
  - change (no_double_dash ((a :: b :: s) ++ [c]))
      with (negb (Ascii.eqb a dash && Ascii.eqb b dash)
            && no_double_dash ((b :: s) ++ [c])).
    change (no_double_dash (a :: b :: s))
      with (negb (Ascii.eqb a dash && Ascii.eqb b dash)
            && no_double_dash (b :: s)).
    rewrite IH.
    change (rev (a :: b :: s)) with (rev (b :: s) ++ [a]).
    rewrite no_leading_dash_app by (apply rev_not_nil; discriminate).
    now rewrite andb_assoc.
Qed.

Lemma no_double_dash_rev (s : jsstring) :
  no_double_dash (rev s) = no_double_dash s.
Proof.
  induction s as [| a s IH]; [reflexivity |].
  simpl rev. rewrite no_double_dash_snoc, rev_involutive, IH.
  destruct s as [| d s].
  - reflexivity.
  - change (no_double_dash (a :: d :: s))
      with (negb (Ascii.eqb a dash && Ascii.eqb d dash)
            && no_double_dash (d :: s)).
    simpl no_leading_dash.
    destruct (Ascii.eqb a dash), (Ascii.eqb d dash),
             (no_double_dash (d :: s)); reflexivity.
Qed.

Lemma dropLeadingDash_In (c : ascii) (s : jsstring) :
  In c (dropLeadingDash s) -> In c s.
Proof.
  destruct s as [| a s]; [intros [] |]. simpl.
  destruct (Ascii.eqb a dash); [now right | exact (fun H => H)].
Qed.

Lemma dropLeadingDash_allowed (s : jsstring) :
  forallb allowed s = true -> forallb allowed (dropLeadingDash s) = true.
Proof.
  intros H. apply forallb_forall. intros c Hc.
  apply dropLeadingDash_In in Hc. revert c Hc. now apply forallb_forall.
Qed.

Lemma dropLeadingDash_no_double_dash (s : jsstring) :
  no_double_dash s = true -> no_double_dash (dropLeadingDash s) = true.
Proof.
  destruct s as [| a s]; [reflexivity |]. intros H. simpl.
  destruct (Ascii.eqb a dash); [| exact H].
  now apply no_double_dash_tail in H.
Qed.

Lemma dropLeadingDash_no_leading_dash (s : jsstring) :
  no_double_dash s = true -> no_leading_dash (dropLeadingDash s) = true.
Proof.
  destruct s as [| a s]; [reflexivity |]. intros H. simpl.
  destruct (Ascii.eqb a dash) eqn:Ha; [| simpl; now rewrite Ha].
  destruct s as [| d s]; [reflexivity |].
  change (no_double_dash (a :: d :: s))
    with (negb (Ascii.eqb a dash && Ascii.eqb d dash)
          && no_double_dash (d :: s)) in H.
  rewrite Ha in H. simpl. now destruct (Ascii.eqb d dash).
Qed.

Lemma dropLeadingDash_keeps_end (s : jsstring) :
  no_leading_dash (rev s) = true ->
  no_leading_dash (rev (dropLeadingDash s)) = true.
Proof.
  destruct s as [| a s]; [reflexivity |]. simpl.
  destruct (Ascii.eqb a dash); [| exact (fun H => H)].
  destruct s as [| d s]; [reflexivity |].
  now rewrite no_leading_dash_app by (apply rev_not_nil; discriminate).
Qed.

Lemma stripEdgeDashes_sanitized (s : jsstring) :
  forallb allowed s = true -> no_double_dash s = true ->
  sanitized (stripEdgeDashes s) = true.
Proof.
  intros Hall Hdd. unfold sanitized, stripEdgeDashes.
  pose proof (dropLeadingDash_allowed s Hall) as Hall1.
  pose proof (dropLeadingDash_no_double_dash s Hdd) as Hdd1.
  pose proof (dropLeadingDash_no_leading_dash s Hdd) as Hlead1.
  set (t := dropLeadingDash s) in *.
  assert (Hall2 : forallb allowed (rev t) = true) by now rewrite forallb_rev.
  assert (Hdd2 : no_double_dash (rev t) = true) by now rewrite no_double_dash_rev.
  rewrite forallb_rev, (dropLeadingDash_allowed _ Hall2).
  rewrite rev_involutive, (dropLeadingDash_no_leading_dash _ Hdd2).
  rewrite no_double_dash_rev, (dropLeadingDash_no_double_dash _ Hdd2).
  rewrite dropLeadingDash_keeps_end; [reflexivity |].
  now rewrite rev_involutive.
Qed.

Lemma sanitizeTokenKey_sanitized (key : jsstring) :
  sanitized (sanitizeTokenKey key) = true.
Proof.
  unfold sanitizeTokenKey. apply stripEdgeDashes_sanitized.
  - apply collapseDashes_allowed, replaceInvalid_allowed.
  - apply collapseDashes_no_double_dash.
Qed.

Lemma sanitized_parts (key : jsstring) :
  sanitized key = true ->
  forallb allowed key = true
  /\ no_leading_dash key = true
  /\ no_leading_dash (rev key) = true
  /\ no_double_dash key = true.
Proof.
  unfold sanitized. intros H.
  apply andb_true_iff in H. destruct H as [H Hdd].
  apply andb_true_iff in H. destruct H as [H Htrail].
  apply andb_true_iff in H. destruct H as [Hall Hlead].
  now repeat split.
Qed.

(** Whatever the key, the sanitizer returns a key in sanitized form:
    only characters of [[a-z0-9_-]], no dash in front or at the end, no
    two dashes in a row.  Sanitizing a second time changes nothing. *)
Theorem sanitizeTokenKey_output_sanitized (key : jsstring) :
  sanitized (sanitizeTokenKey key) = true
  /\ sanitizeTokenKey (sanitizeTokenKey key) = sanitizeTokenKey key.
Proof.
  pose proof (sanitizeTokenKey_sanitized key) as Hform.
  split; [exact Hform |].
  destruct (sanitized_parts _ Hform) as [Hall [Hlead [Htrail Hdd]]].
  set (k := sanitizeTokenKey key) in *.
  unfold sanitizeTokenKey.
  rewrite (trim_fixed k Hall), (toLowerCase_fixed k Hall).
  rewrite (replaceInvalid_fixed k Hall), (collapseDashes_fixed k Hdd).
  now apply stripEdgeDashes_fixed.
Qed.

End TokenMore.

Section TokenCssMore.
Import Js Tokens TokenCss.

Variable number : Type.
Variable String_number : number -> jsstring.

Lemma TokenValue_nested_ind (P : TokenValue number -> Prop) :
  (forall p, P (Primitive p)) ->
  (forall items, P (Items items)) ->
  (forall record,
     Forall (fun entry => P (snd entry)) record -> P (Group record)) ->
  forall value, P value.
Proof.
  intros Hp Hi Hg. fix IH 1. intros [p | items | record].
  - apply Hp.
  - apply Hi.
  - apply Hg. induction record as [| [k v] rest IHrest]; constructor.
    + apply IH.
    + exact IHrest.
Qed.

Lemma join_allowed (parts : list jsstring) :
  Forall (fun part => forallb allowed part = true) parts ->
  forallb allowed (ClassNames.join (str "-") parts) = true.
Proof.
  induction 1 as [| part rest Hpart _ IH]; [reflexivity |].
  destruct rest as [| next rest]; [exact Hpart |].
  change (ClassNames.join (str "-") (part :: next :: rest))
    with (part ++ str "-" ++ ClassNames.join (str "-") (next :: rest)).
  rewrite !forallb_app, Hpart, IH. reflexivity.
Qed.

Lemma entry_lines (value : TokenValue number) :
  forall prefix key,
    length (toCSSVars_entry number String_number prefix key value)
    = leaves value
    /\ forall line,
         In line (toCSSVars_entry number String_number prefix key value) ->
         exists path text,
           path <> []
           /\ Forall (fun part => sanitized part = true) path
           /\ line = str "--dyn-"
                     ++ ClassNames.join (str "-") (prefix ++ path)
                     ++ str ": " ++ text ++ str ";".
Proof.
  induction value as [p | items | record IH] using TokenValue_nested_ind;
    intros prefix key.
  - split; [reflexivity |]. intros line [Hline | []].
    exists [sanitizeTokenKey key], (normalizeValue number String_number (inl p)).
    split; [discriminate |]. split.
    + constructor; [apply sanitizeTokenKey_sanitized | constructor].
    + rewrite <- Hline. unfold declaration, cssVar.
      now rewrite <- !app_assoc.
  - split; [reflexivity |]. intros line [Hline | []].
    exists [sanitizeTokenKey key],
           (normalizeValue number String_number (inr items)).
    split; [discriminate |]. split.
    + constructor; [apply sanitizeTokenKey_sanitized | constructor].
    + rewrite <- Hline. unfold declaration, cssVar.
      now rewrite <- !app_assoc.
  - simpl toCSSVars_entry. simpl leaves. split.
    + induction IH as [| entry rest Hentry _ IHrest]; [reflexivity |].
      simpl. rewrite length_app, IHrest.
      now destruct (Hentry (prefix ++ [sanitizeTokenKey key]) (fst entry))
        as [-> _].
    + intros line Hin. apply in_flat_map in Hin.
      destruct Hin as [entry [Hentry Hline]].
      rewrite Forall_forall in IH.
      destruct (IH entry Hentry (prefix ++ [sanitizeTokenKey key]) (fst entry))
        as [_ Hlines].
      destruct (Hlines line Hline) as [path [text [_ [Hpath Heq]]]].
      exists (sanitizeTokenKey key :: path), text.
      split; [discriminate |]. split.
      * constructor; [apply sanitizeTokenKey_sanitized | exact Hpath].
      * rewrite Heq. now rewrite <- app_assoc.
Qed.

Lemma entry_declarations (value : TokenValue number) :
  forall prefix key,
    toCSSVars_entry number String_number prefix key value
    = map (fun leaf =>
             str "--dyn-"
             ++ ClassNames.join (str "-")
                  (prefix ++ sanitizeTokenKey key
                          :: map sanitizeTokenKey (fst leaf))
             ++ str ": " ++ normalizeValue number String_number (snd leaf)
             ++ str ";")
          (value_leaves value).
Proof.
  induction value as [p | items | record IH] using TokenValue_nested_ind;
    intros prefix key.
  - simpl. unfold declaration, cssVar. now rewrite <- !app_assoc.
  - simpl. unfold declaration, cssVar. now rewrite <- !app_assoc.
  - simpl toCSSVars_entry. simpl value_leaves.
    induction IH as [| entry rest Hentry _ IHrest]; [reflexivity |].
    simpl. rewrite map_app, IHrest, Hentry, map_map. f_equal.
    apply map_ext. intros leaf. simpl. now rewrite <- app_assoc.
Qed.

(** [toCSSVars] gives, in entry order, one declaration for each primitive
    or array value of the group:
    [--dyn-<prefix and sanitized keys of the path, joined by dashes>: <text>;]
    where the text of a string is the string, that of a number or boolean
    its string form, and that of an array the texts of its items joined
    by a comma and a space.  Each key of the path is in sanitized form;
    so when the prefix is made of characters of [[a-z0-9_-]], so is the
    whole name after [--dyn-]. *)
Theorem toCSSVars_declarations (record : TokenGroup number)
    (prefix : list jsstring) :
  toCSSVars number String_number record prefix
  = map (fun leaf =>
           str "--dyn-"
           ++ ClassNames.join (str "-")
                (prefix ++ map sanitizeTokenKey (fst leaf))
           ++ str ": " ++ normalizeValue number String_number (snd leaf)
           ++ str ";")
        (group_leaves record)
  /\ ((forall s, normalizeValue number String_number (inl (PString s)) = s)
      /\ (forall n,
            normalizeValue number String_number (inl (PNumber n))
            = String_number n)
      /\ normalizeValue number String_number (inl (PBoolean true)) = str "true"
      /\ normalizeValue number String_number (inl (PBoolean false))
         = str "false"
      /\ (forall items,
            normalizeValue number String_number (inr items)
            = ClassNames.join (str ", ")
                (map (fun p => normalizeValue number String_number (inl p))
                     items)))
  /\ length (toCSSVars number String_number record prefix)
     = list_sum (map (fun entry => leaves (snd entry)) record)
  /\ forall line,
       In line (toCSSVars number String_number record prefix) ->
       exists path text,
         path <> []
         /\ Forall (fun part => sanitized part = true) path
         /\ line = str "--dyn-"
                   ++ ClassNames.join (str "-") (prefix ++ path)
                   ++ str ": " ++ text ++ str ";"
         /\ (Forall (fun part => forallb allowed part = true) prefix ->
             forallb allowed (ClassNames.join (str "-") (prefix ++ path))
             = true).
Proof.
  unfold toCSSVars. split; [| split; [| split]].
  - unfold group_leaves. simpl value_leaves.
    induction record as [| entry rest IH]; [reflexivity |].
    simpl. rewrite map_app, IH, entry_declarations, map_map. reflexivity.
  - repeat split; reflexivity.
  - induction record as [| entry rest IH]; [reflexivity |].
    simpl. rewrite length_app, IH.
    now destruct (entry_lines (snd entry) prefix (fst entry)) as [-> _].
  - intros line Hin. apply in_flat_map in Hin.
    destruct Hin as [entry [_ Hline]].
    destruct (entry_lines (snd entry) prefix (fst entry)) as [_ Hlines].
    destruct (Hlines line Hline) as [path [text [Hne [Hpath Heq]]]].
    exists path, text. repeat split; try assumption.
    intros Hprefix. apply join_allowed. apply Forall_app. split; [exact Hprefix |].
    apply Forall_forall. intros part Hpart.
    rewrite Forall_forall in Hpath.
    now destruct (sanitized_parts part (Hpath part Hpart)).
Qed.

End TokenCssMore.
